(** * The NFC emulator's command line: NDEF builder and reporter, command
      lexer, dispatchers and notification builders of [src/cmdline.c]

    The development embeds [cmdline.c] function by function.  Memory that
    the C code writes through pointers is a [list Z] of bytes addressed by
    offsets; [cb.log_err], [cb.log_msg] and every call that leaves the file
    are recorded as events of a trace; a [return -1] is a [None] (or the
    value [-1] where the C function returns a status), and an access outside
    the memory the function was given is the outcome [Undefined]. *)

From Stdlib Require Import ZArith String Ascii Bool Lia List.
From Equations Require Import Equations.
Import ListNotations.

Set Implicit Arguments.
Open Scope string_scope.
Open Scope list_scope.
Open Scope Z_scope.

(** ** C strings *)

Definition LF : string := String "010"%char EmptyString.
Definition CRLF : string := String "013"%char LF.
Definition DQ : string := String "034"%char EmptyString.

Fixpoint strchr (s : string) (c : ascii) : bool :=
  match s with
  | EmptyString => false
  | String d s' => if Ascii.eqb c d then true else strchr s' c
  end.

Definition strlen (s : string) : nat := String.length s.

(** [strcmp p q == 0] *)
Definition streq (p q : string) : bool := String.eqb p q.

(** ** Parameter structures of the commands *)

Record nfc_ndef_record_param := {
  rec_flags : Z;           (* unsigned long flags *)
  rec_tnf : Z;             (* enum ndef_tnf tnf *)
  rec_type : string;
  rec_id : string;
  rec_payload : string
}.

Record nfc_snep_param := {
  snep_dsap : Z;
  snep_ssap : Z;
  snep_nrecords : nat;
  snep_record : list nfc_ndef_record_param
}.

(** [param.re] points into the table [nfc_res] or is [NULL]: an index. *)
Record nfc_ntf_param := {
  ntf_re : option nat;
  ntf_ntype : Z;
  ntf_rf : Z;
  ntf_dreason : Z;
  ntf_dtype : Z
}.

Record nfc_llcp_param := {
  llcp_dsap : Z;
  llcp_ssap : Z
}.

(** ** Traces

    The callbacks handed to [cb.send_dta], [cb.recv_dta] and [cb.send_ntf]
    are named by constructors carrying the parameter block they are passed
    with. *)

Inductive fmt_arg :=
| AStr (s : string)              (* %s *)
| AInt (z : Z)                   (* %d, %u, %ld, %lu, %zu *)
| AStrN (n : Z) (s : string).    (* %.*s : precision and buffer *)

Inductive dta_cb :=
| Nfc_send_snep_put_cb (param : nfc_snep_param)
| Nfc_llcp_connect_cb (param : nfc_llcp_param).

Inductive recv_cb :=
| Nfc_recv_snep_put_cb (param : nfc_snep_param).

Inductive ntf_cb :=
| Nfc_rf_discovery_ntf_cb (param : nfc_ntf_param)
| Nfc_rf_intf_activated_ntf_cb (param : nfc_ntf_param)
| Nfc_rf_intf_deactivate_ntf_cb (param : nfc_ntf_param).

Inductive event :=
| Log_err (fmt : string) (args : list fmt_arg)
| Log_msg (fmt : string) (args : list fmt_arg)
| Send_dta (f : dta_cb)
| Recv_dta (f : recv_cb)
| Send_ntf (f : ntf_cb)
| Re_send_snep_put (re : nat) (dsap ssap : Z) (data : nfc_snep_param)
| Re_recv_snep_put (re : nat) (dsap ssap : Z) (data : nfc_snep_param)
| Re_send_llcp_connect (re : nat) (dsap ssap : Z)
| Clear_re (re : nat)
| Create_rf_discovery_ntf (re : option nat) (ntype : Z)
| Create_rf_intf_activated_ntf (re : nat)
| Create_deactivate_ntf (dtype dreason : Z)
| Tag_set_data (tag : option nat) (data : option (list Z)) (len : nat)
| Tag_format (tag : option nat).

(** ** The monad of the embedding: state, trace, undefined behaviour *)

Inductive outcome (A : Type) : Type :=
| Done (a : A)
| Undefined.
Arguments Undefined {A}.

Definition M (S A : Type) : Type := S -> outcome (A * S) * list event.

Definition ret {S A} (a : A) : M S A := fun s => (Done (a, s), []).

Definition bind {S A B} (m : M S A) (f : A -> M S B) : M S B :=
  fun s =>
    match m s with
    | (Done (a, s'), ev) => let (r, ev') := f a s' in (r, ev ++ ev')
    | (Undefined, ev) => (Undefined, ev)
    end.

Notation "x <- m ;; k" := (bind m (fun x => k))
  (at level 61, m at next level, right associativity).
Notation "m ;;; k" := (bind m (fun _ => k))
  (at level 61, right associativity).

Definition undefined {S A} : M S A := fun _ => (Undefined, []).
Definition get {S} : M S S := fun s => (Done (s, s), []).
Definition put {S} (s : S) : M S unit := fun _ => (Done (tt, s), []).
Definition emit {S} (e : event) : M S unit := fun s => (Done (tt, s), [e]).

Definition log_err {S} (fmt : string) (args : list fmt_arg) : M S unit :=
  emit (Log_err fmt args).
Definition log_msg {S} (fmt : string) (args : list fmt_arg) : M S unit :=
  emit (Log_msg fmt args).

(** A computation on a local object (a stack buffer) run inside another. *)
Definition with_local {S L A} (l : L) (m : M L A) : M S (A * L) :=
  fun s =>
    match m l with
    | (Done (a, l'), ev) => (Done ((a, l'), s), ev)
    | (Undefined, ev) => (Undefined, ev)
    end.

(** ** Bytes in memory *)

Fixpoint store (buf : list Z) (off : nat) (bs : list Z) : list Z :=
  match off, buf with
  | O, _ => bs ++ skipn (length bs) buf
  | S k, x :: buf' => x :: store buf' k bs
  | S k, [] => []
  end.

Definition load (buf : list Z) (off n : nat) : list Z :=
  firstn n (skipn off buf).

(** [memcpy]-like write of [bs] at [buf+off]; outside the memory of [buf]
    the C program has no defined behaviour. *)
Definition write_bytes (off : nat) (bs : list Z) : M (list Z) unit :=
  fun buf =>
    if (off + length bs <=? length buf)%nat
    then (Done (tt, store buf off bs), [])
    else (Undefined, []).

Definition read_byte (off : nat) : M (list Z) Z :=
  fun buf =>
    match nth_error buf off with
    | Some b => (Done (b, buf), [])
    | None => (Undefined, [])
    end.

(** [len - off] on [size_t]. *)
Definition size_sub (len off : nat) : Z :=
  (Z.of_nat len - Z.of_nat off) mod 2 ^ 64.

(** ** ndef.h *)

(** Modelled from the spec: [ndef.h] (the NDEF record header, its flag bits
    MB, ME, CF, SR, IL, the TNF bits and the length accessors that the
    Builder and the Reporter share) is not among the sources.  The header
    is the NFC Forum NDEF record header: one byte of flags and TNF, one
    byte of type length, the payload length in one byte (SR) or four
    big-endian bytes, and one byte of id length when IL is set; type, id
    and payload follow in this order. *)
Definition NDEF_FLAG_MB : Z := 0x80.
Definition NDEF_FLAG_ME : Z := 0x40.
Definition NDEF_FLAG_CF : Z := 0x20.
Definition NDEF_FLAG_SR : Z := 0x10.
Definition NDEF_FLAG_IL : Z := 0x08.
Definition NDEF_TNF_BITS : Z := 0x07.

(** [flags & bit] as a C condition *)
Definition has (flags bit : Z) : bool := negb (Z.land flags bit =? 0).

(** Modelled from the spec: [sizeof(struct ndef_rec)], the fixed part of the
    header (flags and type length). *)
Definition sizeof_ndef_rec : nat := 2.

Definition be32 (n : Z) : list Z :=
  [ (n / 2 ^ 24) mod 256; (n / 2 ^ 16) mod 256; (n / 2 ^ 8) mod 256; n mod 256 ].

Definition of_be32 (bs : list Z) : Z :=
  match bs with
  | [a; b; c; d] => ((a * 256 + b) * 256 + c) * 256 + d
  | _ => 0
  end.

Definition plen_size (flags : Z) : nat := if has flags NDEF_FLAG_SR then 1 else 4.
Definition ilen_size (flags : Z) : nat := if has flags NDEF_FLAG_IL then 1 else 0.
Definition ndef_hdr_len (flags : Z) : nat :=
  (sizeof_ndef_rec + plen_size flags + ilen_size flags)%nat.

(** Modelled from the spec: the first byte of a record, five flag bits over
    three TNF bits. *)
Definition ndef_hdr_byte (flags tnf : Z) : Z :=
  Z.lor (Z.land flags (255 - NDEF_TNF_BITS)) (Z.land tnf NDEF_TNF_BITS).

(** Modelled from the spec: the bytes [ndef_create_rec] stores at [ndef]. *)
Definition ndef_hdr (flags tnf : Z) (tlen plen ilen : Z) : list Z :=
  [ ndef_hdr_byte flags tnf; tlen mod 256 ]
  ++ (if has flags NDEF_FLAG_SR then [plen mod 256] else be32 plen)
  ++ (if has flags NDEF_FLAG_IL then [ilen mod 256] else []).

Definition ndef_create_rec (ndef : nat) (flags tnf : Z) (tlen plen ilen : Z)
  : M (list Z) nat :=
  write_bytes ndef (ndef_hdr flags tnf tlen plen ilen) ;;;
  ret (ndef_hdr_len flags).

Definition ndef_rec_set_type_len (ndef : nat) (tlen : Z) : M (list Z) unit :=
  write_bytes (ndef + 1) [tlen mod 256].

Definition ndef_rec_set_payload_len (ndef : nat) (plen : Z) : M (list Z) unit :=
  flags <- read_byte ndef ;;
  if has flags NDEF_FLAG_SR
  then write_bytes (ndef + 2) [plen mod 256]
  else write_bytes (ndef + 2) (be32 plen).

Definition ndef_rec_set_id_len (ndef : nat) (ilen : Z) : M (list Z) unit :=
  flags <- read_byte ndef ;;
  write_bytes (ndef + 2 + plen_size flags) [ilen mod 256].

(** ** base64.h *)

(** Modelled from the spec: the base64url codec is not among the sources.
    [b64_decode] is the decoding of a text ([None]: not base64url),
    [encode_base64 src dst-capacity dst] gives, for what the buffer [dst]
    held before the call, the returned length, as the [size_t] the Reporter
    stores it in, and what the buffer holds after the call. *)
Class Base64 := {
  b64_decode : string -> option (list Z);
  encode_base64 : list Z -> nat -> string -> Z * string
}.

(** Modelled from the spec: "each decode bounded by remaining capacity";
    "decode routines must refuse to write past [len-off]".  [None] is a
    negative result. *)
Definition decode_base64 `{Base64} (enc : string) (declen : Z) : option (list Z) :=
  match b64_decode enc with
  | Some bs => if Z.of_nat (length bs) <=? declen then Some bs else None
  | None => None
  end.

(** ** build_ndef_msg *)

Section Builder.
Context `{Base64}.

(** The [uint8_t flags] of record [i] of [nrecords]. *)
Definition ndef_flags (record : nfc_ndef_record_param) (i nrecords : nat) : Z :=
  let idlen := strlen (rec_id record) in
  (Z.lor (Z.lor (Z.lor (rec_flags record)
                       (NDEF_FLAG_MB * Z.b2z (i =? 0)%nat))
                (NDEF_FLAG_ME * Z.b2z (i + 1 =? nrecords)%nat))
         (NDEF_FLAG_IL * Z.b2z (negb (idlen =? 0)%nat))) mod 256.

(** The body of the [for] loop; the result is the new [off], [None] for
    [return -1]. *)
Definition build_ndef_rec (record : nfc_ndef_record_param) (i nrecords : nat)
           (len off : nat) : M (list Z) (option nat) :=
  let flags := ndef_flags record i nrecords in
  let ndef := off in
  hlen <- ndef_create_rec ndef flags (rec_tnf record) 0 0 0 ;;
  let off := (off + hlen)%nat in
  (* decode type *)
  match decode_base64 (rec_type record) (size_sub len off) with
  | None => ret None
  | Some ty =>
    write_bytes off ty ;;;
    ndef_rec_set_type_len ndef (Z.of_nat (length ty)) ;;;
    let off := (off + length ty)%nat in
    (* decode id *)
    r <- (if has flags NDEF_FLAG_IL
          then match decode_base64 (rec_id record) (size_sub len off) with
               | None => ret None
               | Some idb =>
                 write_bytes off idb ;;;
                 ndef_rec_set_id_len ndef (Z.of_nat (length idb)) ;;;
                 ret (Some (off + length idb)%nat)
               end
          else ret (Some off)) ;;
    match r with
    | None => ret None
    | Some off =>
      (* decode payload *)
      match decode_base64 (rec_payload record) (size_sub len off) with
      | None => ret None
      | Some pl =>
        write_bytes off pl ;;;
        if (255 <? Z.of_nat (length pl)) && has flags NDEF_FLAG_SR
        then
          log_err "KO: NDEF flag SR set for long payload of %zu bytes"
                  [AInt (Z.of_nat (length pl))] ;;;
          ret None
        else
          ndef_rec_set_payload_len ndef (Z.of_nat (length pl)) ;;;
          ret (Some (off + length pl)%nat)
      end
    end
  end.

(** [for (i = 0; i < nrecords; ++i, ++record)], with [todo = nrecords - i]
    iterations left; reading past the end of [record] is undefined. *)
Fixpoint build_ndef_loop (todo : nat) (record : list nfc_ndef_record_param)
         (i nrecords : nat) (len off : nat) : M (list Z) (option nat) :=
  match todo with
  | O => ret (Some off)
  | S todo' =>
    match record with
    | [] => undefined
    | r :: record' =>
      res <- build_ndef_rec r i nrecords len off ;;
      match res with
      | None => ret None
      | Some off' => build_ndef_loop todo' record' (S i) nrecords len off'
      end
    end
  end.

(** The state is the memory at [buf]; the result is the returned [off]. *)
Definition build_ndef_msg (record : list nfc_ndef_record_param)
           (nrecords : nat) (len : nat) : M (list Z) (option nat) :=
  build_ndef_loop nrecords record 0 nrecords len 0.

End Builder.

(** ** create_snep_cp *)

(** Modelled from the spec: [snep.h] is not among the sources.
    [sizeof_snep] is [sizeof(struct snep)], the SNEP header in front of the
    information field [snep->info]; [snep_create_req_put res] "wrap[s] it as
    a SNEP put request header" on the memory at [snep] and gives the value
    it returns. *)
Class Snep := {
  sizeof_snep : nat;
  snep_create_req_put : nat -> M (list Z) Z
}.

(** A computation on the memory from offset [o] on. *)
Definition at_offset {A} (o : nat) (m : M (list Z) A) : M (list Z) A :=
  fun mem =>
    match m (skipn o mem) with
    | (Done (a, mem'), ev) => (Done (a, firstn o mem ++ mem'), ev)
    | (Undefined, ev) => (Undefined, ev)
    end.

Section CreateSnep.
Context `{Base64} `{Snep}.

(** The state is the memory at [snep]; [snep->info] is what follows the
    header, and [len - sizeof(snep)] is a subtraction on [size_t]. *)
Definition create_snep_cp (data : nfc_snep_param) (len : nat) : M (list Z) Z :=
  res <- at_offset sizeof_snep
           (build_ndef_msg (snep_record data) (snep_nrecords data)
                           (Z.to_nat (size_sub len sizeof_snep))) ;;
  match res with
  | None => ret (-1)
  | Some res => snep_create_req_put res
  end.

End CreateSnep.

(** ** nfc_recv_process_ndef_cb *)

Definition inspect {A : Type} (x : A) : {y : A | x = y} := exist _ x eq_refl.

Definition load_opt (mem : list Z) (off n : nat) : option (list Z) :=
  if (off + n <=? length mem)%nat then Some (load mem off n) else None.

Definition obind {A B} (o : option A) (f : A -> option B) : option B :=
  match o with
  | Some a => f a
  | None => None
  end.

Notation "x <-? o ; k" := (obind o (fun x => k))
  (at level 61, o at next level, right associativity).

(** Modelled from the spec: the read accessors of [ndef.h], on the record
    at offset [ndef] of [mem]; [None] is a read outside [mem]. *)
Definition ndef_rec_type_len (mem : list Z) (ndef : nat) : option nat :=
  tlen <-? nth_error mem (ndef + 1) ; Some (Z.to_nat tlen).

Definition ndef_rec_payload_len (mem : list Z) (ndef : nat) : option nat :=
  flags <-? nth_error mem ndef ;
  if has flags NDEF_FLAG_SR
  then plen <-? nth_error mem (ndef + 2) ; Some (Z.to_nat plen)
  else bs <-? load_opt mem (ndef + 2) 4 ; Some (Z.to_nat (of_be32 bs)).

Definition ndef_rec_id_len (mem : list Z) (ndef : nat) : option nat :=
  flags <-? nth_error mem ndef ;
  if has flags NDEF_FLAG_IL
  then ilen <-? nth_error mem (ndef + 2 + plen_size flags) ; Some (Z.to_nat ilen)
  else Some O.

Definition ndef_rec_const_type (mem : list Z) (ndef : nat) : option nat :=
  flags <-? nth_error mem ndef ; Some (ndef + ndef_hdr_len flags)%nat.

Definition ndef_rec_const_id (mem : list Z) (ndef : nat) : option nat :=
  ty <-? ndef_rec_const_type mem ndef ;
  tlen <-? ndef_rec_type_len mem ndef ;
  Some (ty + tlen)%nat.

Definition ndef_rec_const_payload (mem : list Z) (ndef : nat) : option nat :=
  idp <-? ndef_rec_const_id mem ndef ;
  ilen <-? ndef_rec_id_len mem ndef ;
  Some (idp + ilen)%nat.

Definition ndef_rec_len (mem : list Z) (ndef : nat) : option nat :=
  flags <-? nth_error mem ndef ;
  tlen <-? ndef_rec_type_len mem ndef ;
  ilen <-? ndef_rec_id_len mem ndef ;
  plen <-? ndef_rec_payload_len mem ndef ;
  Some (ndef_hdr_len flags + tlen + ilen + plen)%nat.

Definition ndef_report_fmt : string :=
  "{" ++ DQ ++ "tnf" ++ DQ ++ ": %d,"
  ++ " " ++ DQ ++ "type" ++ DQ ++ ": " ++ DQ ++ "%.*s" ++ DQ ++ ","
  ++ " " ++ DQ ++ "id" ++ DQ ++ ": " ++ DQ ++ "%.*s" ++ DQ ++ ","
  ++ " " ++ DQ ++ "payload" ++ DQ ++ ": " ++ DQ ++ "%.*s" ++ DQ ++ "}".

(** What the three buffers of [char base64[3][512]] hold, as C strings. *)
Definition base64_bufs : Type := (string * string * string)%type.

Section Reporter.
Context `{Base64}.

(** One turn of the [while] loop up to "advance record": the entry that
    is logged, [reclen] and what the buffers hold afterwards; [None] is a
    read outside [mem].  The results of [encode_base64] go to [cb.log_msg]
    as they are, with the buffers. *)
Definition nfc_recv_process_ndef_rec (mem : list Z) (ndef : nat) (base64 : base64_bufs)
  : option (event * nat * base64_bufs) :=
  typ <-? ndef_rec_const_type mem ndef ;
  tn <-? ndef_rec_type_len mem ndef ;
  ty <-? load_opt mem typ tn ;
  let (tlen, b0) := encode_base64 ty 512 (fst (fst base64)) in
  idp <-? ndef_rec_const_id mem ndef ;
  idn <-? ndef_rec_id_len mem ndef ;
  idb <-? load_opt mem idp idn ;
  let (ilen, b1) := encode_base64 idb 512 (snd (fst base64)) in
  plp <-? ndef_rec_const_payload mem ndef ;
  pn <-? ndef_rec_payload_len mem ndef ;
  pl <-? load_opt mem plp pn ;
  let (plen, b2) := encode_base64 pl 512 (snd base64) in
  flags <-? nth_error mem ndef ;
  reclen <-? ndef_rec_len mem ndef ;
  Some (Log_msg ndef_report_fmt
                [AInt (Z.land flags NDEF_TNF_BITS);
                 AStrN tlen b0; AStrN ilen b1; AStrN plen b2],
        reclen, (b0, b1, b2)).

(** [while (remain)] *)
Equations? nfc_recv_process_ndef_loop (mem : list Z) (remain : Z) (ndef : nat)
  (base64 : base64_bufs) : outcome Z * list event by wf (Z.to_nat remain) lt :=
nfc_recv_process_ndef_loop mem remain ndef base64 with Z.eq_dec remain 0 := {
  | left _ => (Done 0, [Log_msg ("]" ++ CRLF) []])
  | right _ with Z_lt_dec remain (Z.of_nat sizeof_ndef_rec) := {
    | left _ => (Done (-1), []) (* too short *)
    | right _ with inspect (nfc_recv_process_ndef_rec mem ndef base64) := {
      | exist _ None _ => (Undefined, [])
      | exist _ (Some (entry, reclen, base64')) _ =>
        let remain' := remain - Z.of_nat reclen in
        let (r, ev) :=
            nfc_recv_process_ndef_loop mem remain' (ndef + reclen)%nat base64' in
        (r, entry :: (if remain' =? 0 then [] else [Log_msg "," []]) ++ ev)
      } } }.
Proof.
  assert (2 <= reclen)%nat.
  { revert e. unfold nfc_recv_process_ndef_rec, ndef_rec_len, obind.
    repeat match goal with
           | |- context [match ?x with _ => _ end] => destruct x; try discriminate
           end.
    intros E; inversion E; subst. unfold ndef_hdr_len, sizeof_ndef_rec. lia. }
  unfold sizeof_ndef_rec in *. lia.
Qed.

(** The message is the memory [mem] from offset [ndef] on, [len] bytes
    of it; [data] is not used.  The local [base64] is not initialised:
    [base64] here is what the stack holds in its place when the function
    starts. *)
Definition nfc_recv_process_ndef_cb {S} (base64 : base64_bufs)
           (data : nfc_snep_param) (len : nat)
           (mem : list Z) (ndef : nat) : M S Z :=
  fun s =>
    match nfc_recv_process_ndef_loop mem (Z.of_nat len) ndef base64 with
    | (Done r, ev) => (Done (r, s), Log_msg "[" [] :: ev)
    | (Undefined, ev) => (Undefined, Log_msg "[" [] :: ev)
    end.

End Reporter.

(** ** The command lexer *)

(** [strsep]: the token up to the first delimiter and the rest of the
    line ([None] is [NULL]). *)
Fixpoint strsep_split (s delim : string) : string * option string :=
  match s with
  | EmptyString => (EmptyString, None)
  | String c s' =>
    if strchr delim c then (EmptyString, Some s')
    else let (tok, rest) := strsep_split s' delim in (String c tok, rest)
  end.

Definition strsep (stringp : option string) (delim : string)
  : option string * option string :=
  match stringp with
  | None => (None, None)
  | Some s => let (tok, rest) := strsep_split s delim in (Some tok, rest)
  end.

(** the test that [*args] is a non-empty string: the loop condition of
    [parse_ndef_msg] and [args && *args] in the dispatchers *)
Definition args_nonempty (args : option string) : bool :=
  match args with
  | None => false
  | Some s => negb (strlen s =? 0)%nat
  end.

(** The C library: [strtol(tok, NULL, 0)] and [strtoul(tok, NULL, 0)] give
    the value and the [errno] they leave (0: none), [strerror] its text. *)
Class Libc := {
  strtol : string -> Z * Z;
  strtoul : string -> Z * Z;
  strerror : Z -> string
}.

(** Constants of the headers that are not among the sources. *)
Class Consts := {
  LLCP_NUMBER_OF_SAPS : Z;
  LLCP_SAP_LM : Z;
  NDEF_FLAG_BITS : Z;
  NDEF_NUMBER_OF_TNFS : Z;
  NUMBER_OF_NCI_NOTIFICATION_TYPES : Z;
  NUMBER_OF_SUPPORTED_NCI_RF_INTERFACES : Z;
  NUMBER_OF_NCI_RF_DEACT_TYPE : Z;
  NUMBER_OF_NCI_RF_DEACT_REASON : Z;
  NCI_RF_DEACT_DISCOVERY : Z;
  NCI_RF_DEACT_RF_LINK_LOSS : Z;
  MAXIMUM_SUPPORTED_TAG_SIZE : nat
}.

Section Lexer.
Context {St : Type} `{Libc} `{Consts}.

(** A parser returns the value stored through its out-pointer and the
    advanced [*args]; [None] is [return -1] (or [NULL] for [lex_token]). *)
Definition lex_token (field delim : string) (args : option string)
  : M St (option (string * option string)) :=
  let (tok, args) := strsep args delim in
  match tok with
  | None =>
    log_err ("KO: no token %s given" ++ CRLF) [AStr field] ;;;
    ret None
  | Some tok => ret (Some (tok, args))
  end.

Definition parse_token_l (field delim : string) (args : option string)
  : M St (option (Z * option string)) :=
  tok <- lex_token field delim args ;;
  match tok with
  | None => ret None
  | Some (tok, args) =>
    let (val, errno) := strtol tok in
    if negb (errno =? 0) then
      log_err ("KO: invalid value '%s' for token %s, error %d(%s)" ++ CRLF)
              [AStr tok; AStr field; AInt errno; AStr (strerror errno)] ;;;
      ret None
    else ret (Some (val, args))
  end.

Definition parse_token_ul (field delim : string) (args : option string)
  : M St (option (Z * option string)) :=
  tok <- lex_token field delim args ;;
  match tok with
  | None => ret None
  | Some (tok, args) =>
    let (val, errno) := strtoul tok in
    if negb (errno =? 0) then
      log_err ("KO: invalid value '%s' for token %s, error %d(%s)" ++ CRLF)
              [AStr tok; AStr field; AInt errno; AStr (strerror errno)] ;;;
      ret None
    else ret (Some (val, args))
  end.

Definition parse_token_s (field delim : string) (args : option string)
           (allow_empty : bool) : M St (option (string * option string)) :=
  val <- lex_token field delim args ;;
  match val with
  | None => ret None
  | Some (val, args) =>
    if negb allow_empty && (strlen val =? 0)%nat then
      log_err ("KO: empty token %s" ++ CRLF) [AStr field] ;;;
      ret None
    else ret (Some (val, args))
  end.

Definition parse_sap (field : string) (args : option string)
           (can_autodetect : bool) : M St (option (Z * option string)) :=
  r <- parse_token_l field " " args ;;
  match r with
  | None => ret None
  | Some (sap, args) =>
    if ((sap =? -1) && negb can_autodetect)
       || (sap <? -1) || negb (sap <? LLCP_NUMBER_OF_SAPS) then
      log_err ("KO: invalid %s '%ld'" ++ CRLF) [AStr field; AInt sap] ;;;
      ret None
    else ret (Some (sap, args))
  end.

(** [record] is the content of [*record] before the call; the TNF
    diagnostic prints its [tnf]. *)
Definition parse_ndef_rec (args : option string) (record : nfc_ndef_record_param)
  : M St (option (nfc_ndef_record_param * option string)) :=
  (* read opening bracket *)
  let (p, args) := strsep args "[" in
  match p with
  | None =>
    log_err ("KO: no NDEF record given" ++ CRLF) [] ;;;
    ret None
  | Some _ =>
    (* read flags *)
    r <- parse_token_ul "NDEF flags" " ," args ;;
    match r with
    | None => ret None
    | Some (flags, args) =>
      if negb (Z.land flags (Z.lnot NDEF_FLAG_BITS) =? 0) then
        log_err ("KO: invalid NDEF flags '%u'" ++ CRLF) [AInt flags] ;;;
        ret None
      else
        (* read TNF *)
        r <- parse_token_ul "NDEF TNF" " ," args ;;
        match r with
        | None => ret None
        | Some (tnf, args) =>
          if negb (tnf <? NDEF_NUMBER_OF_TNFS) then
            log_err ("KO: invalid NDEF TNF '%u'" ++ CRLF) [AInt (rec_tnf record)] ;;;
            ret None
          else
            (* read type *)
            r <- parse_token_s "NDEF type" " ," args false ;;
            match r with
            | None => ret None
            | Some (type, args) =>
              (* read id; might by empty *)
              r <- parse_token_s "NDEF id" " ," args true ;;
              match r with
              | None => ret None
              | Some (id, args) =>
                (* read payload *)
                r <- parse_token_s "NDEF payload" "]" args false ;;
                match r with
                | None => ret None
                | Some (payload, args) =>
                  ret (Some ({| rec_flags := flags; rec_tnf := tnf;
                                rec_type := type; rec_id := id;
                                rec_payload := payload |}, args))
                end
              end
            end
        end
    end
  end.

(** The [for] loop of [parse_ndef_msg] with [todo = nrecs - i]; [rec] is
    the array from [rec+i] on.  The result is the final [i], the array
    from [rec+i] on after the loop, and [*args]. *)
Fixpoint parse_ndef_loop (todo : nat) (args : option string)
         (rec : list nfc_ndef_record_param) (i : nat)
  : M St (option (nat * list nfc_ndef_record_param * option string)) :=
  match todo with
  | O => ret (Some (i, rec, args))
  | S todo' =>
    if args_nonempty args then
      match rec with
      | [] => undefined
      | r :: rec' =>
        x <- parse_ndef_rec args r ;;
        match x with
        | None => ret None
        | Some (r', args) =>
          y <- parse_ndef_loop todo' args rec' (S i) ;;
          match y with
          | None => ret None
          | Some (n, rec'', args) => ret (Some (n, r' :: rec'', args))
          end
        end
      end
    else ret (Some (i, rec, args))
  end.

Definition parse_ndef_msg (args : option string) (nrecs : nat)
           (rec : list nfc_ndef_record_param)
  : M St (option (nat * list nfc_ndef_record_param * option string)) :=
  x <- parse_ndef_loop nrecs args rec 0 ;;
  match x with
  | None => ret None
  | Some (i, rec, args) =>
    if args_nonempty args then
      log_err ("KO: invalid characters near EOL: %s" ++ CRLF)
              [AStr (match args with Some s => s | None => "" end)] ;;;
      ret None
    else ret (Some (i, rec, args))
  end.

Definition parse_re_index (args : option string) (nres : Z)
  : M St (option (Z * option string)) :=
  r <- parse_token_ul "remote endpoint" " " args ;;
  match r with
  | None => ret None
  | Some (i, args) =>
    if negb (i <? nres) then
      log_err ("KO: unknown remote endpoint %lu" ++ CRLF) [AInt i] ;;;
      ret None
    else ret (Some (i, args))
  end.

Definition parse_nci_ntf_type (args : option string)
  : M St (option (Z * option string)) :=
  r <- parse_token_ul "discover notification type" " " args ;;
  match r with
  | None => ret None
  | Some (ntype, args) =>
    if negb (ntype <? NUMBER_OF_NCI_NOTIFICATION_TYPES) then
      log_err ("KO: unknown discover notification type %lu" ++ CRLF) [AInt ntype] ;;;
      ret None
    else ret (Some (ntype, args))
  end.

Definition parse_rf_index (args : option string)
  : M St (option (Z * option string)) :=
  r <- parse_token_l "rf index" " " args ;;
  match r with
  | None => ret None
  | Some (rf, args) =>
    if (rf <? -1) || (NUMBER_OF_SUPPORTED_NCI_RF_INTERFACES <=? rf) then
      log_err ("KO: unknown rf index %lu" ++ CRLF) [AInt rf] ;;;
      ret None
    else ret (Some (rf, args))
  end.

Definition parse_nci_deactivate_ntf_type (args : option string)
  : M St (option (Z * option string)) :=
  r <- parse_token_ul "deactivate notification type" " " args ;;
  match r with
  | None => ret None
  | Some (dtype, args) =>
    if negb (dtype <? NUMBER_OF_NCI_RF_DEACT_TYPE) then
      log_err ("KO: unknown deactivate notification type %lu" ++ CRLF) [AInt dtype] ;;;
      ret None
    else ret (Some (dtype, args))
  end.

Definition parse_nci_deactivate_ntf_reason (args : option string)
  : M St (option (Z * option string)) :=
  r <- parse_token_ul "deactivate notification reason" " " args ;;
  match r with
  | None => ret None
  | Some (dreason, args) =>
    if negb (dreason <? NUMBER_OF_NCI_RF_DEACT_REASON) then
      log_err ("KO: unknown deactivate notification reason %lu" ++ CRLF) [AInt dreason] ;;;
      ret None
    else ret (Some (dreason, args))
  end.

End Lexer.

(** ** The device, the remote endpoints and the host *)

(** Modelled from the spec: [nfc.h], [nfc-re.h] and [nfc-tag.h] are not
    among the sources.  [re_link] stands for the part of [struct nfc_re]
    that [cmdline.c] never reads (the endpoint's negotiated link-layer
    state), [rf_table] for the RF-interface table [nfc->rf], [host_state]
    for everything else the host owns (transport, tag contents). *)
Class NfcTypes := {
  re_link : Type;
  rf_table : Type;
  host_state : Type
}.

(** [tag] is the tag handle [re->tag] ([None]: [NULL]). *)
Record nfc_re `{NfcTypes} := {
  last_dsap : Z;
  last_ssap : Z;
  rfproto : Z;
  mode : Z;
  tag : option nat;
  link : re_link
}.

(** [active_re] points into [nfc_res], [active_rf] into [nfc->rf]: indices. *)
Record nfc_device `{NfcTypes} := {
  active_re : option nat;
  active_rf : option Z;
  rf : rf_table
}.

Record world `{NfcTypes} := {
  nfc : nfc_device;
  nfc_res : list nfc_re;
  host : host_state
}.

(** What [cmdline.c] calls outside itself: the functions of [nfc-re.c],
    [nfc.c], [nfc-nci.c] and [nfc-tag.c], and the host's table [cb].  A
    call that may change what the host owns takes and returns the world;
    its first component is the value the C function returns. *)
Class NfcHost `{NfcTypes} := {
  nfc_clear_re : nfc_re -> nfc_re;
  nfc_find_rf_by_protocol_and_mode : nfc_device -> Z -> Z -> option Z;
  nfc_re_send_snep_put : nat -> Z -> Z -> nfc_snep_param -> world -> Z * world;
  nfc_re_recv_snep_put : nat -> Z -> Z -> nfc_snep_param -> world -> Z * world;
  nfc_re_send_llcp_connect : nat -> Z -> Z -> world -> Z * world;
  nfc_create_rf_discovery_ntf : option nat -> Z -> world -> Z * world;
  nfc_create_rf_intf_activated_ntf : nat -> world -> Z * world;
  nfc_create_deactivate_ntf : Z -> Z -> world -> Z * world;
  nfc_tag_set_data : option nat -> option (list Z) -> nat -> world -> Z * world;
  nfc_tag_format : option nat -> world -> Z * world;
  cb_send_dta : dta_cb -> world -> Z * world;
  cb_recv_dta : recv_cb -> world -> Z * world;
  cb_send_ntf : ntf_cb -> world -> Z * world
}.

Section Callbacks.
Context `{NfcHost}.

(** A call that leaves the file, recorded in the trace. *)
Definition call (e : event) (f : world -> Z * world) : M world Z :=
  fun w => let (r, w') := f w in (Done (r, w'), [e]).

(** [*re] for a pointer into [nfc_res] *)
Definition deref_re (re : nat) : M world nfc_re :=
  fun w =>
    match nth_error (nfc_res w) re with
    | Some r => (Done (r, w), [])
    | None => (Undefined, [])
    end.

Fixpoint list_set {A} (l : list A) (i : nat) (x : A) : list A :=
  match l, i with
  | [], _ => []
  | _ :: l', O => x :: l'
  | y :: l', S i' => y :: list_set l' i' x
  end.

Definition set_active_rf (a : option Z) : M world unit :=
  fun w =>
    (Done (tt, {| nfc := {| active_re := active_re (nfc w);
                            active_rf := a;
                            rf := rf (nfc w) |};
                  nfc_res := nfc_res w;
                  host := host w |}), []).

(** [nfc_clear_re(re)] for a pointer into [nfc_res] *)
Definition clear_re (re : nat) : M world unit :=
  r <- deref_re re ;;
  emit (Clear_re re) ;;;
  (fun w => (Done (tt, {| nfc := nfc w;
                          nfc_res := list_set (nfc_res w) re (nfc_clear_re r);
                          host := host w |}), [])).

(** The callbacks return their result and the parameter block as they
    leave it. *)
Definition nfc_send_snep_put_cb (param : nfc_snep_param)
  : M world (Z * nfc_snep_param) :=
  w <- get ;;
  match active_re (nfc w) with
  | None =>
    log_err ("KO: no active remote endpoint" ++ LF) [] ;;;
    ret (-1, param)
  | Some re =>
    are <- deref_re re ;;
    let param :=
        if (snep_dsap param <? 0) && (snep_ssap param <? 0)
        then {| snep_dsap := last_dsap are; snep_ssap := last_ssap are;
                snep_nrecords := snep_nrecords param;
                snep_record := snep_record param |}
        else param in
    res <- call (Re_send_snep_put re (snep_dsap param) (snep_ssap param) param)
                (nfc_re_send_snep_put re (snep_dsap param) (snep_ssap param) param) ;;
    if res <? 0 then
      log_err ("KO: 'snep put' failed" ++ CRLF) [] ;;;
      ret (-1, param)
    else ret (res, param)
  end.

Definition nfc_recv_snep_put_cb (param : nfc_snep_param)
  : M world (Z * nfc_snep_param) :=
  w <- get ;;
  match active_re (nfc w) with
  | None =>
    log_err ("KO: no active remote endpoint" ++ CRLF) [] ;;;
    ret (-1, param)
  | Some re =>
    are <- deref_re re ;;
    let param :=
        if (snep_dsap param <? 0) && (snep_ssap param <? 0)
        then {| snep_dsap := last_dsap are; snep_ssap := last_ssap are;
                snep_nrecords := snep_nrecords param;
                snep_record := snep_record param |}
        else param in
    res <- call (Re_recv_snep_put re (snep_dsap param) (snep_ssap param) param)
                (nfc_re_recv_snep_put re (snep_dsap param) (snep_ssap param) param) ;;
    if res <? 0 then
      log_err ("KO: 'snep put' failed" ++ CRLF) [] ;;;
      ret (-1, param)
    else ret (0, param)
  end.


Definition set_ntf_re (param : nfc_ntf_param) (re : nat) : nfc_ntf_param :=
  {| ntf_re := Some re; ntf_ntype := ntf_ntype param; ntf_rf := ntf_rf param;
     ntf_dreason := ntf_dreason param; ntf_dtype := ntf_dtype param |}.

Definition nfc_rf_intf_activated_ntf_cb (param : nfc_ntf_param)
  : M world (Z * nfc_ntf_param) :=
  w <- get ;;
  match (match ntf_re param with
         | Some re => Some re
         | None => active_re (nfc w)
         end) with
  | None =>
    log_err ("KO: no active remote-endpoint" ++ LF) [] ;;;
    ret (-1, param)
  | Some re =>
    let param := set_ntf_re param re in
    clear_re re ;;;
    w <- get ;;
    ok <- match active_rf (nfc w) with
          | Some _ =>
            (* Already select an active rf interface,so do nothing. *)
            ret true
          | None =>
            if ntf_rf param =? -1 then
              (* Auto select active rf interface based on remote-endpoint
                 protocol and mode. *)
              r <- deref_re re ;;
              set_active_rf
                (nfc_find_rf_by_protocol_and_mode (nfc w) (rfproto r) (mode r)) ;;;
              w <- get ;;
              match active_rf (nfc w) with
              | None =>
                log_err ("KO: no active rf interface" ++ CRLF) [] ;;;
                ret false
              | Some _ => ret true
              end
            else
              set_active_rf (Some (ntf_rf param)) ;;;
              ret true
          end ;;
    if ok : bool then
      res <- call (Create_rf_intf_activated_ntf re)
                  (nfc_create_rf_intf_activated_ntf re) ;;
      if res <? 0 then
        log_err ("KO: rf_intf_activated_ntf failed" ++ CRLF) [] ;;;
        ret (-1, param)
      else ret (res, param)
    else ret (-1, param)
  end.


Definition nfc_llcp_connect_cb (param : nfc_llcp_param)
  : M world (Z * nfc_llcp_param) :=
  w <- get ;;
  match active_re (nfc w) with
  | None =>
    log_err ("KO: no active remote endpoint" ++ LF) [] ;;;
    ret (-1, param)
  | Some re =>
    are <- deref_re re ;;
    let param :=
        if (llcp_dsap param <? 0) && (llcp_ssap param <? 0)
        then {| llcp_dsap := last_dsap are; llcp_ssap := last_ssap are |}
        else param in
    if llcp_dsap param =? 0 then
      log_err ("KO: DSAP is 0" ++ CRLF) [] ;;;
      ret (-1, param)
    else if llcp_ssap param =? 0 then
      log_err ("KO: SSAP is 0" ++ CRLF) [] ;;;
      ret (-1, param)
    else
      res <- call (Re_send_llcp_connect re (llcp_dsap param) (llcp_ssap param))
                  (nfc_re_send_llcp_connect re (llcp_dsap param) (llcp_ssap param)) ;;
      if res <? 0 then
        log_err ("KO: LLCP connect failed" ++ CRLF) [] ;;;
        ret (-1, param)
      else ret (0, param)
  end.

End Callbacks.

(** ** The dispatchers *)

Definition NFC_NDEF_PARAM_RECORD_INIT : nfc_ndef_record_param :=
  {| rec_flags := 0; rec_tnf := 0; rec_type := ""; rec_id := ""; rec_payload := "" |}.

Definition NFC_NTF_PARAM_INIT : nfc_ntf_param :=
  {| ntf_re := None; ntf_ntype := 0; ntf_rf := -1; ntf_dreason := 0; ntf_dtype := 0 |}.

Definition NFC_LLCP_PARAM_INIT : nfc_llcp_param :=
  {| llcp_dsap := 0; llcp_ssap := 0 |}.

Section Dispatchers.
Context `{NfcHost} `{Libc} `{Consts} `{Base64}.

Definition NFC_SNEP_PARAM_INIT : nfc_snep_param :=
  {| snep_dsap := LLCP_SAP_LM; snep_ssap := LLCP_SAP_LM; snep_nrecords := 0;
     snep_record := repeat NFC_NDEF_PARAM_RECORD_INIT 4 |}.

(** [ARRAY_SIZE(nfc_res)] *)
Definition nfc_res_size (w : world) : Z := Z.of_nat (length (nfc_res w)).

Definition nfc_cmd_snep (args : option string) : M world Z :=
  match args with
  | None =>
    log_err ("KO: no arguments given" ++ CRLF) [] ;;;
    ret (-1)
  | Some _ =>
    let (p, args) := strsep args " " in
    match p with
    | None =>
      log_err ("KO: no operation given" ++ CRLF) [] ;;;
      ret (-1)
    | Some p =>
      if streq p "put" then
        let param := NFC_SNEP_PARAM_INIT in
        (* read DSAP *)
        r <- parse_sap "DSAP" args true ;;
        match r with
        | None => ret (-1)
        | Some (dsap, args) =>
          (* read SSAP *)
          r <- parse_sap "SSAP" args true ;;
          match r with
          | None => ret (-1)
          | Some (ssap, args) =>
            r <- parse_ndef_msg args 4 (snep_record param) ;;
            match r with
            | None => ret (-1)
            | Some (nrecords, record, args) =>
              let param := {| snep_dsap := dsap; snep_ssap := ssap;
                              snep_nrecords := nrecords;
                              snep_record := record |} in
              if negb (snep_nrecords param =? 0)%nat then
                (* put SNEP request onto SNEP server *)
                res <- call (Send_dta (Nfc_send_snep_put_cb param))
                            (cb_send_dta (Nfc_send_snep_put_cb param)) ;;
                if res <? 0 then ret (-1) else ret 0
              else
                res <- call (Recv_dta (Nfc_recv_snep_put_cb param))
                            (cb_recv_dta (Nfc_recv_snep_put_cb param)) ;;
                if res <? 0 then ret (-1) else ret 0
            end
          end
        end
      else
        log_err ("KO: invalid operation '%s'" ++ CRLF) [AStr p] ;;;
        ret (-1)
    end
  end.

Definition set_ntf (re : option nat) (ntype rf dreason dtype : Z) : nfc_ntf_param :=
  {| ntf_re := re; ntf_ntype := ntype; ntf_rf := rf;
     ntf_dreason := dreason; ntf_dtype := dtype |}.

Definition nfc_cmd_nci (args : option string) : M world Z :=
  match args with
  | None =>
    log_err ("KO: no arguments given" ++ CRLF) [] ;;;
    ret (-1)
  | Some _ =>
    (* read notification type *)
    let (p, args) := strsep args " " in
    match p with
    | None =>
      log_err ("KO: no operation given" ++ CRLF) [] ;;;
      ret (-1)
    | Some p =>
      w <- get ;;
      if streq p "rf_discover_ntf" then
        let param := NFC_NTF_PARAM_INIT in
        (* read remote-endpoint index *)
        r <- parse_re_index args (nfc_res_size w) ;;
        match r with
        | None => ret (-1)
        | Some (i, args) =>
          (* read discover notification type *)
          r <- parse_nci_ntf_type args ;;
          match r with
          | None => ret (-1)
          | Some (ntype, args) =>
            let param := set_ntf (Some (Z.to_nat i)) ntype (ntf_rf param)
                                 (ntf_dreason param) (ntf_dtype param) in
            (* generate RF_DISCOVER_NTF *)
            res <- call (Send_ntf (Nfc_rf_discovery_ntf_cb param))
                        (cb_send_ntf (Nfc_rf_discovery_ntf_cb param)) ;;
            if res <? 0 then ret (-1) else ret 0
          end
        end
      else if streq p "rf_intf_activated_ntf" then
        let param := NFC_NTF_PARAM_INIT in
        r <- (if args_nonempty args then
                (* read remote-endpoint index *)
                r <- parse_re_index args (nfc_res_size w) ;;
                match r with
                | None => ret None
                | Some (i, args) =>
                  if args_nonempty args then
                    (* read rf interface index *)
                    r <- parse_rf_index args ;;
                    match r with
                    | None => ret None
                    | Some (rf, args) =>
                      ret (Some (set_ntf (Some (Z.to_nat i)) (ntf_ntype param) rf
                                         (ntf_dreason param) (ntf_dtype param)))
                    end
                  else
                    ret (Some (set_ntf (Some (Z.to_nat i)) (ntf_ntype param) (-1)
                                       (ntf_dreason param) (ntf_dtype param)))
                end
              else
                ret (Some (set_ntf None (ntf_ntype param) (-1)
                                   (ntf_dreason param) (ntf_dtype param)))) ;;
        match r with
        | None => ret (-1)
        | Some param =>
          (* generate RF_INTF_ACTIVATED_NTF; if param.re == NULL,
             active RE will be used *)
          res <- call (Send_ntf (Nfc_rf_intf_activated_ntf_cb param))
                      (cb_send_ntf (Nfc_rf_intf_activated_ntf_cb param)) ;;
          if res <? 0 then ret (-1) else ret 0
        end
      else if streq p "rf_intf_deactivate_ntf" then
        let param := NFC_NTF_PARAM_INIT in
        r <- (if args_nonempty args then
                (* read deactivate ntf type *)
                r <- parse_nci_deactivate_ntf_type args ;;
                match r with
                | None => ret None
                | Some (dtype, args) =>
                  (* read deactivate ntf reason *)
                  r <- parse_nci_deactivate_ntf_reason args ;;
                  match r with
                  | None => ret None
                  | Some (dreason, args) =>
                    ret (Some (set_ntf (ntf_re param) (ntf_ntype param)
                                       (ntf_rf param) dreason dtype))
                  end
                end
              else
                ret (Some (set_ntf (ntf_re param) (ntf_ntype param) (ntf_rf param)
                                   NCI_RF_DEACT_RF_LINK_LOSS
                                   NCI_RF_DEACT_DISCOVERY))) ;;
        match r with
        | None => ret (-1)
        | Some param =>
          res <- call (Send_ntf (Nfc_rf_intf_deactivate_ntf_cb param))
                      (cb_send_ntf (Nfc_rf_intf_deactivate_ntf_cb param)) ;;
          if res <? 0 then ret (-1) else ret 0
        end
      else
        log_err ("KO: invalid operation '%s'" ++ CRLF) [AStr p] ;;;
        ret (-1)
    end
  end.

Definition nfc_cmd_llcp (args : option string) : M world Z :=
  match args with
  | None =>
    log_err ("KO: no arguments given" ++ CRLF) [] ;;;
    ret (-1)
  | Some _ =>
    let (p, args) := strsep args " " in
    match p with
    | None =>
      log_err ("KO: no operation given" ++ CRLF) [] ;;;
      ret (-1)
    | Some p =>
      if streq p "connect" then
        (* read DSAP *)
        r <- parse_sap "DSAP" args true ;;
        match r with
        | None => ret (-1)
        | Some (dsap, args) =>
          (* read SSAP *)
          r <- parse_sap "SSAP" args true ;;
          match r with
          | None => ret (-1)
          | Some (ssap, args) =>
            let param := {| llcp_dsap := dsap; llcp_ssap := ssap |} in
            res <- call (Send_dta (Nfc_llcp_connect_cb param))
                        (cb_send_dta (Nfc_llcp_connect_cb param)) ;;
            if res <? 0 then ret (-1) else ret 0
          end
        end
      else
        log_err ("KO: invalid operation '%s'" ++ CRLF) [AStr p] ;;;
        ret (-1)
    end
  end.

(** The local arrays [record] and [buf] of the "set" branch are not
    initialised: [record] and [buf] here are what the stack holds in their
    place, entry by entry, when the function starts. *)
Definition nfc_cmd_tag (record : nat -> nfc_ndef_record_param) (buf : nat -> Z)
           (args : option string) : M world Z :=
  match args with
  | None =>
    log_err ("KO: no arguments given" ++ CRLF) [] ;;;
    ret (-1)
  | Some _ =>
    let (p, args) := strsep args " " in
    match p with
    | None =>
      log_err ("KO: no operation given" ++ CRLF) [] ;;;
      ret (-1)
    | Some p =>
      w <- get ;;
      if streq p "set" then
        (* read remote-endpoint index *)
        r <- parse_re_index args (nfc_res_size w) ;;
        match r with
        | None => ret (-1)
        | Some (i, args) =>
          re <- deref_re (Z.to_nat i) ;;
          match tag re with
          | None =>
            log_err ("KO: remote endpoint is not a tag" ++ CRLF) [] ;;;
            ret (-1)
          | Some _ =>
            r <- parse_ndef_msg args 4 (map record (seq 0 4)) ;;
            match r with
            | None => ret (-1)
            | Some (nrecords, record, args) =>
              r <- with_local (map buf (seq 0 MAXIMUM_SUPPORTED_TAG_SIZE))
                     (build_ndef_msg record nrecords MAXIMUM_SUPPORTED_TAG_SIZE) ;;
              match r with
              | (None, _) => ret (-1)
              | (Some res, buf) =>
                r <- call (Tag_set_data (tag re) (Some (firstn res buf)) res)
                          (nfc_tag_set_data (tag re) (Some (firstn res buf)) res) ;;
                if r <? 0 then ret (-1) else ret 0
              end
            end
          end
        end
      else if streq p "clear" then
        (* read remote-endpoint index *)
        r <- parse_re_index args (nfc_res_size w) ;;
        match r with
        | None => ret (-1)
        | Some (i, args) =>
          re <- deref_re (Z.to_nat i) ;;
          r <- call (Tag_set_data (tag re) None 0)
                    (nfc_tag_set_data (tag re) None 0) ;;
          if r <? 0 then ret (-1) else ret 0
        end
      else if streq p "format" then
        (* read remote-endpoint index *)
        r <- parse_re_index args (nfc_res_size w) ;;
        match r with
        | None => ret (-1)
        | Some (i, args) =>
          re <- deref_re (Z.to_nat i) ;;
          r <- call (Tag_format (tag re)) (nfc_tag_format (tag re)) ;;
          if r <? 0 then ret (-1) else ret 0
        end
      else ret 0
    end
  end.

End Dispatchers.

(** ** Notions used to state the properties

    What the Builder is expected to put on the wire and what the Reporter
    is expected to log, written from the layout of the record and not from
    the loops; the theorems below compare the code with them. *)

Section Notions.
Context `{Base64}.

(** The decoded bytes of a base64url field (nothing when it does not
    decode). *)
Definition dec (s : string) : list Z :=
  match b64_decode s with Some bs => bs | None => [] end.

(** Record [i] of [n] on the wire: header, type, id, payload.  The id is
    present when the IL bit of its flags is. *)
Definition ndef_rec_wire (r : nfc_ndef_record_param) (i n : nat) : list Z :=
  let flags := ndef_flags r i n in
  let ty := dec (rec_type r) in
  let idb := if has flags NDEF_FLAG_IL then dec (rec_id r) else [] in
  let pl := dec (rec_payload r) in
  ndef_hdr flags (rec_tnf r) (Z.of_nat (length ty)) (Z.of_nat (length pl))
           (Z.of_nat (length idb)) ++ ty ++ idb ++ pl.

Fixpoint ndef_msg_wire (record : list nfc_ndef_record_param) (i n : nat) : list Z :=
  match record with
  | [] => []
  | r :: record' => ndef_rec_wire r i n ++ ndef_msg_wire record' (S i) n
  end.

(** The offset of record [k] in a message of [n] records. *)
Definition ndef_rec_offset (record : list nfc_ndef_record_param) (n k : nat) : nat :=
  length (ndef_msg_wire (firstn k record) 0 n).

(** The decodes of record [i], whose header is at [off], all succeed within
    the capacity that is left when they run, and the SR check passes. *)
Definition rec_decodes (len : nat) (r : nfc_ndef_record_param) (i n off : nat) : Prop :=
  let flags := ndef_flags r i n in
  let o1 := (off + ndef_hdr_len flags)%nat in
  let ty := dec (rec_type r) in
  let idb := if has flags NDEF_FLAG_IL then dec (rec_id r) else [] in
  let pl := dec (rec_payload r) in
  decode_base64 (rec_type r) (size_sub len o1) = Some ty /\
  (has flags NDEF_FLAG_IL = true ->
   decode_base64 (rec_id r) (size_sub len (o1 + length ty)) = Some idb) /\
  decode_base64 (rec_payload r) (size_sub len (o1 + length ty + length idb)) = Some pl /\
  (255 <? Z.of_nat (length pl)) && has flags NDEF_FLAG_SR = false.

(** Record [i], whose header is at [off], is refused: SR with a payload
    of more than 255 bytes, or a field that does not decode within the
    capacity that is left when its decode runs. *)
Definition rec_refused (len : nat) (r : nfc_ndef_record_param) (i n off : nat) : Prop :=
  let flags := ndef_flags r i n in
  let o1 := (off + ndef_hdr_len flags)%nat in
  let ty := dec (rec_type r) in
  let idb := if has flags NDEF_FLAG_IL then dec (rec_id r) else [] in
  (has flags NDEF_FLAG_SR = true /\ 255 < Z.of_nat (length (dec (rec_payload r)))) \/
  decode_base64 (rec_type r) (size_sub len o1) = None \/
  (has flags NDEF_FLAG_IL = true /\
   decode_base64 (rec_id r) (size_sub len (o1 + length ty)) = None) \/
  decode_base64 (rec_payload r) (size_sub len (o1 + length ty + length idb)) = None.
(** The length and the text [encode_base64] gives for [bs] in a buffer of
    512 bytes that held nothing. *)
Definition b64_text_512 (bs : list Z) : Z * string := encode_base64 bs 512 "".



(** The entry the Reporter logs for record [i] when the texts fit: its
    TNF, and the length and the text of its type, id and payload. *)
Definition ndef_report_entry (r : nfc_ndef_record_param) (i n : nat) : event :=
  let flags := ndef_flags r i n in
  let ty := dec (rec_type r) in
  let idb := if has flags NDEF_FLAG_IL then dec (rec_id r) else [] in
  let pl := dec (rec_payload r) in
  let (tlen, b0) := b64_text_512 ty in
  let (ilen, b1) := b64_text_512 idb in
  let (plen, b2) := b64_text_512 pl in
  Log_msg ndef_report_fmt
          [AInt (Z.land (rec_tnf r) NDEF_TNF_BITS);
           AStrN tlen b0; AStrN ilen b1; AStrN plen b2].


(** The report after the opening bracket: one entry per record, in order,
    a comma between two entries, the closing bracket. *)
Fixpoint ndef_report (record : list nfc_ndef_record_param) (i n : nat) : list event :=
  match record with
  | [] => [Log_msg ("]" ++ CRLF) []]
  | r :: record' =>
    ndef_report_entry r i n
    :: (match record' with [] => [] | _ => [Log_msg "," []] end)
    ++ ndef_report record' (S i) n
  end.


End Notions.

(** A parser that succeeds has logged nothing and left the state alone. *)
Definition silent {St A} (m : M St (option A)) : Prop :=
  forall s x s' ev, m s = (Done (Some x, s'), ev) -> s' = s /\ ev = [].


Definition invalid_operation (p : string) : list event :=
  [Log_err ("KO: invalid operation '%s'" ++ CRLF) [AStr p]].

Section DispatchNotions.
Context `{NfcHost}.

(** The one call [nfc_cmd_snep] makes for a parsed [put], and its result. *)
Definition snep_dispatch (param : nfc_snep_param) : event :=
  if (snep_nrecords param =? 0)%nat
  then Recv_dta (Nfc_recv_snep_put_cb param)
  else Send_dta (Nfc_send_snep_put_cb param).

Definition snep_dispatch_result (param : nfc_snep_param) (w : world) : Z * world :=
  if (snep_nrecords param =? 0)%nat
  then cb_recv_dta (Nfc_recv_snep_put_cb param) w
  else cb_send_dta (Nfc_send_snep_put_cb param) w.

(** The SAPs a callback goes on with, given the active endpoint. *)
Definition resolve_saps (dsap ssap : Z) (are : nfc_re) : Z * Z :=
  if (dsap <? 0) && (ssap <? 0) then (last_dsap are, last_ssap are) else (dsap, ssap).

Definition snep_resolved (param : nfc_snep_param) (are : nfc_re) : nfc_snep_param :=
  {| snep_dsap := fst (resolve_saps (snep_dsap param) (snep_ssap param) are);
     snep_ssap := snd (resolve_saps (snep_dsap param) (snep_ssap param) are);
     snep_nrecords := snep_nrecords param;
     snep_record := snep_record param |}.

Definition sent_llcp_connect (e : event) : option (Z * Z) :=
  match e with
  | Re_send_llcp_connect _ dsap ssap => Some (dsap, ssap)
  | _ => None
  end.

(** The endpoint [nfc_rf_intf_activated_ntf_cb] works on. *)
Definition ntf_target (param : nfc_ntf_param) (w : world) : option nat :=
  match ntf_re param with
  | Some re => Some re
  | None => active_re (nfc w)
  end.

End DispatchNotions.

(** ** Notions for the behaviour on every input *)

Section BuildNotions.
Context `{Base64}.

(** Every record of [record], the first of which is record [i] of [n] with
    its header at [off], decodes within the capacity [len]. *)
Definition recs_decode (len : nat) (record : list nfc_ndef_record_param)
           (i n off : nat) : Prop :=
  forall k r, nth_error record k = Some r ->
    rec_decodes len r (i + k) n (off + length (ndef_msg_wire (firstn k record) i n)).



(** A computation on the memory at [buf] that returns, with a result in
    [Q], and keeps [P]. *)
Definition keeps {A} (P : list Z -> Prop) (Q : A -> Prop) (m : M (list Z) A) : Prop :=
  forall s, P s -> exists a s' ev, m s = (Done (a, s'), ev) /\ P s' /\ Q a.

(** The memory has [L] bytes and the first byte of the record at [ndef]
    is [hb]. *)
Definition rec_started (L ndef : nat) (hb : Z) (s : list Z) : Prop :=
  length s = L /\ nth_error s ndef = Some hb.

Definition any_result {A} (a : A) : Prop := True.

End BuildNotions.


(** A parser either succeeds, logging nothing, or fails with one
    diagnostic; it leaves the state alone. *)
Definition reports {St A} (m : M St (option A)) : Prop :=
  forall s, (exists x, m s = (Done (Some x, s), []))
            \/ (exists fmt args, m s = (Done (None, s), [Log_err fmt args])).

(** The closing bracket of the Reporter. *)
Definition ndef_report_close : event := Log_msg ("]" ++ CRLF) [].

Definition is_log_msg (e : event) : Prop :=
  match e with
  | Log_msg _ _ => True
  | _ => False
  end.



Section OutcomeNotions.
Context `{NfcHost} `{Consts}.

(** The parameter blocks [nfc_cmd_nci] hands to the host: the fields a
    line does not give keep the values of [NFC_NTF_PARAM_INIT], the others
    are in range. *)
Definition ntf_cb_valid (w : world) (f : ntf_cb) : Prop :=
  match f with
  | Nfc_rf_discovery_ntf_cb p =>
    (exists re, p = set_ntf (Some re) (ntf_ntype p) (-1) 0 0 /\
                (re < length (nfc_res w))%nat) /\
    0 <= ntf_ntype p < NUMBER_OF_NCI_NOTIFICATION_TYPES
  | Nfc_rf_intf_activated_ntf_cb p =>
    p = set_ntf (ntf_re p) 0 (ntf_rf p) 0 0 /\
    (ntf_rf p = -1 \/ 0 <= ntf_rf p < NUMBER_OF_SUPPORTED_NCI_RF_INTERFACES) /\
    match ntf_re p with
    | None => ntf_rf p = -1
    | Some re => (re < length (nfc_res w))%nat
    end
  | Nfc_rf_intf_deactivate_ntf_cb p =>
    p = set_ntf None 0 (-1) (ntf_dreason p) (ntf_dtype p) /\
    ((ntf_dtype p = NCI_RF_DEACT_DISCOVERY /\ ntf_dreason p = NCI_RF_DEACT_RF_LINK_LOSS)
     \/ (0 <= ntf_dtype p < NUMBER_OF_NCI_RF_DEACT_TYPE /\
         0 <= ntf_dreason p < NUMBER_OF_NCI_RF_DEACT_REASON))
  end.

(** The RF interface that is active once [nfc_rf_intf_activated_ntf_cb]
    has worked on the endpoint [r]: the one that was active, else the one
    the parameter names, else the one found for the endpoint. *)
Definition rf_choice (param : nfc_ntf_param) (w : world) (r : nfc_re) : option Z :=
  match active_rf (nfc w) with
  | Some a => Some a
  | None =>
    if ntf_rf param =? -1
    then nfc_find_rf_by_protocol_and_mode (nfc w) (rfproto (nfc_clear_re r))
                                          (mode (nfc_clear_re r))
    else Some (ntf_rf param)
  end.

(** The result of a dispatcher whose line led to the one call [f],
    recorded as [e]: [-1] when the call fails, [0] otherwise. *)
Definition dispatched (e : event) (f : world -> Z * world) (w : world)
  : outcome (Z * world) * list event :=
  (Done (if fst (f w) <? 0 then -1 else 0, snd (f w)), [e]).

End OutcomeNotions.

(** ** Collaborators for the examples

    One instance of each interface above, to run the embedding on concrete
    command lines: a base64url codec, the C library's number parsers, the
    constants, and a host that accepts every call and changes nothing. *)

Module Fake.

Definition b64_val (c : ascii) : option Z :=
  let n := Z.of_nat (nat_of_ascii c) in
  if (65 <=? n) && (n <=? 90) then Some (n - 65)
  else if (97 <=? n) && (n <=? 122) then Some (n - 71)
  else if (48 <=? n) && (n <=? 57) then Some (n + 4)
  else if n =? 45 then Some 62
  else if n =? 95 then Some 63
  else None.

Fixpoint b64_vals (s : string) : option (list Z) :=
  match s with
  | EmptyString => Some []
  | String c s' =>
    v <-? b64_val c ; vs <-? b64_vals s' ; Some (v :: vs)
  end.

Fixpoint b64_bytes (vs : list Z) : option (list Z) :=
  match vs with
  | [] => Some []
  | [_] => None
  | [a; b] => Some [a * 4 + b / 16]
  | [a; b; c] => Some [a * 4 + b / 16; (b mod 16) * 16 + c / 4]
  | a :: b :: c :: d :: vs' =>
    bs <-? b64_bytes vs' ;
    Some (a * 4 + b / 16 :: (b mod 16) * 16 + c / 4 :: (c mod 4) * 64 + d :: bs)
  end.

Definition b64_char (v : Z) : ascii :=
  ascii_of_nat (Z.to_nat
    (if v <? 26 then v + 65
     else if v <? 52 then v + 71
     else if v <? 62 then v - 4
     else if v =? 62 then 45 else 95)).

Fixpoint b64_text (bs : list Z) : string :=
  match bs with
  | [] => EmptyString
  | [x] => String (b64_char (x / 4)) (String (b64_char ((x mod 4) * 16)) EmptyString)
  | [x; y] =>
    String (b64_char (x / 4))
      (String (b64_char ((x mod 4) * 16 + y / 16))
         (String (b64_char ((y mod 16) * 4)) EmptyString))
  | x :: y :: z :: bs' =>
    String (b64_char (x / 4))
      (String (b64_char ((x mod 4) * 16 + y / 16))
         (String (b64_char ((y mod 16) * 4 + z / 64))
            (String (b64_char (z mod 64)) (b64_text bs'))))
  end.

(** Modelled from the spec: "a base64url encode/decode pair with explicit
    output-capacity bounds"; a text that does not fit gives a negative
    result, [(size_t)-1] once stored in the Reporter's [size_t], and the
    buffer is left as it was. *)
#[export] Instance base64url : Base64 := {
  b64_decode s := vs <-? b64_vals s ; b64_bytes vs;
  encode_base64 src cap dst :=
    let s := b64_text src in
    if (strlen s <=? cap)%nat then (Z.of_nat (strlen s), s)
    else (2 ^ 64 - 1, dst)
}.

Definition is_space (c : ascii) : bool :=
  let n := nat_of_ascii c in
  (n =? 32)%nat || ((9 <=? n)%nat && (n <=? 13)%nat).

Definition digit_val (c : ascii) : option Z :=
  let n := Z.of_nat (nat_of_ascii c) in
  if (48 <=? n) && (n <=? 57) then Some (n - 48)
  else if (97 <=? n) && (n <=? 122) then Some (n - 87)
  else if (65 <=? n) && (n <=? 90) then Some (n - 55)
  else None.

Fixpoint skip_space (s : string) : string :=
  match s with
  | String c s' => if is_space c then skip_space s' else s
  | EmptyString => s
  end.

Fixpoint digits (base : Z) (s : string) (acc : Z) : Z :=
  match s with
  | String c s' =>
    match digit_val c with
    | Some d => if d <? base then digits base s' (acc * base + d) else acc
    | None => acc
    end
  | EmptyString => acc
  end.

Definition is_digit_of (base : Z) (s : string) : bool :=
  match s with
  | String c _ =>
    match digit_val c with
    | Some d => d <? base
    | None => false
    end
  | EmptyString => false
  end.

(** sign and magnitude of the number that starts [s], base 0 *)
Definition scan_number (s : string) : bool * Z :=
  let s := skip_space s in
  let (neg, s) :=
      match s with
      | String "-"%char s' => (true, s')
      | String "+"%char s' => (false, s')
      | _ => (false, s)
      end in
  match s with
  | String "0"%char (String x s') =>
    if (Ascii.eqb x "x" || Ascii.eqb x "X") && is_digit_of 16 s'
    then (neg, digits 16 s' 0)
    else (neg, digits 8 (String x s') 0)
  | _ => (neg, digits 10 s 0)
  end.

Definition ERANGE : Z := 34.

#[export] Instance libc : Libc := {
  strtol tok :=
    let (neg, m) := scan_number tok in
    let v := if neg then - m else m in
    if v <? - 2 ^ 63 then (- 2 ^ 63, ERANGE)
    else if 2 ^ 63 - 1 <? v then (2 ^ 63 - 1, ERANGE)
    else (v, 0);
  strtoul tok :=
    let (neg, m) := scan_number tok in
    if 2 ^ 64 - 1 <? m then (2 ^ 64 - 1, ERANGE)
    else ((if neg then - m else m) mod 2 ^ 64, 0);
  strerror e := if e =? ERANGE then "Numerical result out of range" else ""
}.

(** Modelled from the spec: the reserved-bits mask leaves the caller the
    flags that the Builder does not derive; the other values are those of
    the NDEF, LLCP and NCI specifications. *)
#[export] Instance consts : Consts := {
  LLCP_NUMBER_OF_SAPS := 64;
  LLCP_SAP_LM := 0;
  NDEF_FLAG_BITS := Z.lor NDEF_FLAG_CF NDEF_FLAG_SR;
  NDEF_NUMBER_OF_TNFS := 7;
  NUMBER_OF_NCI_NOTIFICATION_TYPES := 3;
  NUMBER_OF_SUPPORTED_NCI_RF_INTERFACES := 4;
  NUMBER_OF_NCI_RF_DEACT_TYPE := 4;
  NUMBER_OF_NCI_RF_DEACT_REASON := 3;
  NCI_RF_DEACT_DISCOVERY := 3;
  NCI_RF_DEACT_RF_LINK_LOSS := 2;
  MAXIMUM_SUPPORTED_TAG_SIZE := 1024
}.

(** The link state is a flag (negotiated or not), the RF-interface table a
    list of (protocol, mode). *)
#[export] Instance fake_types : NfcTypes := {
  re_link := bool;
  rf_table := list (Z * Z);
  host_state := unit
}.

Fixpoint find_rf (t : list (Z * Z)) (i proto md : Z) : option Z :=
  match t with
  | [] => None
  | (p, m) :: t' =>
    if (p =? proto) && (m =? md) then Some i else find_rf t' (i + 1) proto md
  end.

(** Modelled from the spec: [nfc_clear_re] "clears [the endpoint's]
    previously negotiated link-layer state", [nfc_find_rf_by_protocol_and_mode]
    selects "by (protocol, mode) match"; every other call succeeds. *)
#[export] Instance fake_host : NfcHost := {
  nfc_clear_re r :=
    {| last_dsap := last_dsap r; last_ssap := last_ssap r; rfproto := rfproto r;
       mode := mode r; tag := tag r; link := false |};
  nfc_find_rf_by_protocol_and_mode d proto md := find_rf (rf d) 0 proto md;
  nfc_re_send_snep_put _ _ _ _ w := (0, w);
  nfc_re_recv_snep_put _ _ _ _ w := (0, w);
  nfc_re_send_llcp_connect _ _ _ w := (0, w);
  nfc_create_rf_discovery_ntf _ _ w := (0, w);
  nfc_create_rf_intf_activated_ntf _ w := (0, w);
  nfc_create_deactivate_ntf _ _ w := (0, w);
  nfc_tag_set_data _ _ _ w := (0, w);
  nfc_tag_format _ w := (0, w);
  cb_send_dta _ w := (0, w);
  cb_recv_dta _ w := (0, w);
  cb_send_ntf _ w := (0, w)
}.

Definition endpoint (d s proto md : Z) (t : option nat) (l : bool) : nfc_re :=
  {| last_dsap := d; last_ssap := s; rfproto := proto; mode := md;
     tag := t; link := l |}.

Definition device (re : option nat) (a : option Z) (t : list (Z * Z)) : nfc_device :=
  {| active_re := re; active_rf := a; rf := t |}.

Definition the_world (d : nfc_device) (res : list nfc_re) : world :=
  {| nfc := d; nfc_res := res; host := tt |}.

Fixpoint string_rep (n : nat) (s : string) : string :=
  match n with
  | O => EmptyString
  | S n' => s ++ string_rep n' s
  end.

(** Records and worlds of the examples. *)
Definition rec_abc : nfc_ndef_record_param :=
  {| rec_flags := 0; rec_tnf := 1; rec_type := "QUJD"; rec_id := "";
     rec_payload := "REVG" |}.

Definition rec_sr_id : nfc_ndef_record_param :=
  {| rec_flags := 16; rec_tnf := 1; rec_type := "QUJD"; rec_id := "aWQ";
     rec_payload := "REVG" |}.

(** caller flags with IL, no id *)
Definition rec_il_noid : nfc_ndef_record_param :=
  {| rec_flags := 8; rec_tnf := 1; rec_type := "QUJD"; rec_id := "";
     rec_payload := "REVG" |}.



(** SR with a payload of 258 bytes *)
Definition rec_sr_long : nfc_ndef_record_param :=
  {| rec_flags := 16; rec_tnf := 1; rec_type := "QUJD"; rec_id := "";
     rec_payload := string_rep 86 "AAAA" |}.

(** What the stack may hold where the locals that are not initialised
    are: texts in the buffers of the Reporter, records and bytes in the
    arrays of [nfc_cmd_tag]. *)
Definition stale_texts : base64_bufs := ("c3RhbGU", "stale", "x").

Definition stale_records (k : nat) : nfc_ndef_record_param :=
  {| rec_flags := 255; rec_tnf := Z.of_nat k + 3; rec_type := "stale"; rec_id := "";
     rec_payload := "" |}.

Definition stale_bytes (k : nat) : Z := 255 - Z.of_nat (k mod 2).

Definition no_data : nfc_snep_param :=
  {| snep_dsap := 0; snep_ssap := 0; snep_nrecords := 0; snep_record := [] |}.

(** an endpoint, active, whose last SAPs are 16 and 17 *)
Definition world_active : world :=
  the_world (device (Some 0%nat) None []) [endpoint 16 17 0 0 None true].

(** an active endpoint whose last DSAP is 0 *)
Definition world_dsap0 : world :=
  the_world (device (Some 0%nat) None []) [endpoint 0 17 0 0 None true].

(** an endpoint of protocol 2 and mode 2, no RF interface for it *)
Definition world_no_rf : world :=
  the_world (device None None [(1, 1)]) [endpoint 16 17 2 2 None true].

Definition world_tag : world :=
  the_world (device None None []) [endpoint 0 0 0 0 (Some 0%nat) true].

(** the message built from [rec_sr_id; rec_abc] in a buffer of 40 bytes *)
Definition msg2 : list Z :=
  [153; 3; 3; 2; 65; 66; 67; 105; 100; 68; 69; 70;
   65; 3; 0; 0; 0; 3; 65; 66; 67; 68; 69; 70;
   0; 0; 0; 0; 0; 0; 0; 0; 0; 0; 0; 0; 0; 0; 0; 0].

Definition put_param : nfc_snep_param :=
  {| snep_dsap := -1; snep_ssap := 4; snep_nrecords := 1;
     snep_record := [rec_sr_id; NFC_NDEF_PARAM_RECORD_INIT;
                     NFC_NDEF_PARAM_RECORD_INIT; NFC_NDEF_PARAM_RECORD_INIT] |}.

Definition put_none : nfc_snep_param :=
  {| snep_dsap := -1; snep_ssap := -1; snep_nrecords := 0;
     snep_record := repeat NFC_NDEF_PARAM_RECORD_INIT 4 |}.

Definition activate_auto : nfc_ntf_param :=
  {| ntf_re := Some 0%nat; ntf_ntype := 0; ntf_rf := -1; ntf_dreason := 0; ntf_dtype := 0 |}.

(** The same constants with a mask of all five flag bits: what the
    parser lets through depends on the mask alone. *)
Definition consts_all_flags : Consts := {|
  LLCP_NUMBER_OF_SAPS := 64;
  LLCP_SAP_LM := 0;
  NDEF_FLAG_BITS := 0xF8;
  NDEF_NUMBER_OF_TNFS := 7;
  NUMBER_OF_NCI_NOTIFICATION_TYPES := 3;
  NUMBER_OF_SUPPORTED_NCI_RF_INTERFACES := 4;
  NUMBER_OF_NCI_RF_DEACT_TYPE := 4;
  NUMBER_OF_NCI_RF_DEACT_REASON := 3;
  NCI_RF_DEACT_DISCOVERY := 3;
  NCI_RF_DEACT_RF_LINK_LOSS := 2;
  MAXIMUM_SUPPORTED_TAG_SIZE := 1024
|}.

(** Modelled from the spec: the SNEP put request header is taken to be the
    version, the request code and the length of the information field,
    big-endian, six bytes in all. *)
#[export] Instance fake_snep : Snep := {
  sizeof_snep := 6;
  snep_create_req_put res :=
    write_bytes 0 ([16; 2] ++ be32 (Z.of_nat res)) ;;;
    ret (Z.of_nat (6 + res))
}.


(** RF interface 0 is active already *)
Definition world_rf_active : world :=
  the_world (device None (Some 0) [(1, 1)]) [endpoint 16 17 1 1 None true].

Definition activate_rf2 : nfc_ntf_param :=
  {| ntf_re := Some 0%nat; ntf_ntype := 0; ntf_rf := 2; ntf_dreason := 0; ntf_dtype := 0 |}.

Definition put_abc : nfc_snep_param :=
  {| snep_dsap := 4; snep_ssap := 4; snep_nrecords := 1;
     snep_record := [rec_abc; NFC_NDEF_PARAM_RECORD_INIT;
                     NFC_NDEF_PARAM_RECORD_INIT; NFC_NDEF_PARAM_RECORD_INIT] |}.

End Fake.

(** * Properties *)

Unset Implicit Arguments.

Lemma store_app (pre r : list Z) (k : nat) (bs : list Z) :
  store (pre ++ r) (length pre + k) bs = pre ++ store r k bs.
Proof. induction pre as [|x pre IH]; simpl; [reflexivity | now rewrite IH]. Qed.

Lemma store_app0 (pre r : list Z) (bs : list Z) :
  store (pre ++ r) (length pre) bs = pre ++ store r 0 bs.
Proof. rewrite <- (Nat.add_0_r (length pre)) at 1. apply store_app. Qed.


Lemma has_pow2 (f : Z) (k : Z) : 0 <= k -> has f (2 ^ k) = Z.testbit f k.
Proof.
  intros Hk. unfold has.
  destruct (Z.testbit f k) eqn:E.
  - assert (Z.land f (2 ^ k) = 2 ^ k) as ->.
    { apply Z.bits_inj'; intros n Hn. rewrite Z.land_spec, Z.pow2_bits_eqb by lia.
      destruct (Z.eqb_spec k n); subst; [now rewrite E | now rewrite andb_false_r]. }
    assert (0 < 2 ^ k) by (apply Z.pow_pos_nonneg; lia).
    destruct (Z.eqb_spec (2 ^ k) 0); [lia | reflexivity].
  - assert (Z.land f (2 ^ k) = 0) as ->; [|reflexivity].
    apply Z.bits_inj'; intros n Hn. rewrite Z.land_spec, Z.pow2_bits_eqb, Z.bits_0 by lia.
    destruct (Z.eqb_spec k n); subst; [now rewrite E | now rewrite andb_false_r].
Qed.

Lemma has_MB f : has f NDEF_FLAG_MB = Z.testbit f 7.
Proof. exact (has_pow2 f 7 ltac:(lia)). Qed.
Lemma has_ME f : has f NDEF_FLAG_ME = Z.testbit f 6.
Proof. exact (has_pow2 f 6 ltac:(lia)). Qed.
Lemma has_SR f : has f NDEF_FLAG_SR = Z.testbit f 4.
Proof. exact (has_pow2 f 4 ltac:(lia)). Qed.
Lemma has_IL f : has f NDEF_FLAG_IL = Z.testbit f 3.
Proof. exact (has_pow2 f 3 ltac:(lia)). Qed.

Lemma hdr_byte_testbit flags tnf k :
  3 <= k < 8 -> Z.testbit (ndef_hdr_byte flags tnf) k = Z.testbit flags k.
Proof.
  intros Hk. unfold ndef_hdr_byte, NDEF_TNF_BITS.
  rewrite Z.lor_spec, !Z.land_spec.
  assert (k = 3 \/ k = 4 \/ k = 5 \/ k = 6 \/ k = 7) as [->|[->|[->|[->| ->]]]] by lia;
    cbn; now rewrite andb_true_r, andb_false_r, orb_false_r.
Qed.


Lemma store_front (P c bs : list Z) :
  store (P ++ c) (length P) bs = P ++ bs ++ skipn (length bs) c.
Proof. rewrite store_app0. destruct c; reflexivity. Qed.

Lemma store_seg (buf : list Z) (off : nat) (bs P b c : list Z) :
  buf = P ++ b ++ c -> off = length P -> length b = length bs ->
  store buf off bs = P ++ bs ++ c.
Proof.
  intros -> -> Hl. rewrite store_front. f_equal. f_equal.
  rewrite <- Hl. rewrite skipn_app, Nat.sub_diag, skipn_all. reflexivity.
Qed.

Lemma nth_error_mid (buf : list Z) (off : nat) (P c : list Z) (x : Z) :
  buf = P ++ x :: c -> off = length P -> nth_error buf off = Some x.
Proof. intros -> ->. rewrite nth_error_app2, Nat.sub_diag by lia. reflexivity. Qed.

Lemma bind_inv_done {S A B} (m : M S A) (f : A -> M S B) s x ev :
  bind m f s = (Done x, ev) ->
  exists a s1 e1 e2, m s = (Done (a, s1), e1) /\ f a s1 = (Done x, e2) /\ ev = e1 ++ e2.
Proof.
  unfold bind. destruct (m s) as [[[a s1]|] e1]; [|discriminate].
  destruct (f a s1) as [r e2] eqn:E. intros E'; inversion E'; subst.
  exists a, s1, e1, e2; auto.
Qed.

Lemma ret_inv {S A} (a : A) (s : S) x ev :
  ret a s = (Done x, ev) -> x = (a, s) /\ ev = [].
Proof. unfold ret. intros E; inversion E; auto. Qed.

Lemma write_bytes_inv off bs buf x ev :
  write_bytes off bs buf = (Done x, ev) ->
  (off + length bs <= length buf)%nat /\ x = (tt, store buf off bs) /\ ev = [].
Proof.
  unfold write_bytes. destruct (Nat.leb_spec (off + length bs) (length buf)); [|discriminate].
  intros E; inversion E; auto.
Qed.

Lemma read_byte_inv off buf x ev :
  read_byte off buf = (Done x, ev) ->
  exists b, nth_error buf off = Some b /\ x = (b, buf) /\ ev = [].
Proof.
  unfold read_byte. destruct (nth_error buf off); [|discriminate].
  intros E; inversion E; eauto.
Qed.

Lemma store_0 (l bs : list Z) : store l 0 bs = bs ++ skipn (length bs) l.
Proof. destruct l; reflexivity. Qed.

Lemma has_hdr_byte_SR flags tnf :
  has (ndef_hdr_byte flags tnf) NDEF_FLAG_SR = has flags NDEF_FLAG_SR.
Proof. rewrite !has_SR. apply hdr_byte_testbit; lia. Qed.

Lemma has_hdr_byte_IL flags tnf :
  has (ndef_hdr_byte flags tnf) NDEF_FLAG_IL = has flags NDEF_FLAG_IL.
Proof. rewrite !has_IL. apply hdr_byte_testbit; lia. Qed.

Lemma skipn2 (a b : nat) (l : list Z) : skipn a (skipn b l) = skipn (b + a) l.
Proof. rewrite skipn_skipn. f_equal. lia. Qed.

Lemma skipn3 (a b c : nat) (l : list Z) :
  skipn a (skipn b (skipn c l)) = skipn (c + (b + a)) l.
Proof. rewrite !skipn_skipn. f_equal. lia. Qed.

Lemma length_be32 n : length (be32 n) = 4%nat.
Proof. reflexivity. Qed.

Section Wire.
Context `{Base64}.

Lemma decode_base64_dec s cap bs :
  decode_base64 s cap = Some bs -> dec s = bs /\ Z.of_nat (length bs) <= cap.
Proof.
  unfold decode_base64, dec. destruct (b64_decode s); [|discriminate].
  destruct (Z.leb_spec (Z.of_nat (length l)) cap); [|discriminate].
  intros E; inversion E; subst; auto.
Qed.



Ltac norm :=
  repeat (rewrite <- ?Nat.add_assoc, ?store_app, ?store_app0, ?store_0, ?store_front in *;
          cbn [store Nat.add app length skipn] in * ).

Lemma build_ndef_rec_inv r i n len pre rest off' buf' ev :
  build_ndef_rec r i n len (length pre) (pre ++ rest) = (Done (Some off', buf'), ev) ->
  let flags := ndef_flags r i n in
  let o1 := (length pre + ndef_hdr_len flags)%nat in
  let ty := dec (rec_type r) in
  let idb := if has flags NDEF_FLAG_IL then dec (rec_id r) else [] in
  let pl := dec (rec_payload r) in
  decode_base64 (rec_type r) (size_sub len o1) = Some ty /\
  (has flags NDEF_FLAG_IL = true ->
   decode_base64 (rec_id r) (size_sub len (o1 + length ty)) = Some idb) /\
  decode_base64 (rec_payload r) (size_sub len (o1 + length ty + length idb)) = Some pl /\
  (255 <? Z.of_nat (length pl)) && has flags NDEF_FLAG_SR = false /\
  buf' = pre ++ ndef_rec_wire r i n ++ skipn (length (ndef_rec_wire r i n)) rest /\
  off' = (length pre + length (ndef_rec_wire r i n))%nat /\
  (length (ndef_rec_wire r i n) <= length rest)%nat /\
  ev = [].
Proof.
  unfold build_ndef_rec, ndef_rec_wire.
  set (flags := ndef_flags r i n). cbv zeta. intros H0.
  apply bind_inv_done in H0 as (hlen & s1 & e1 & e2 & Hc & H0 & ->).
  unfold ndef_create_rec in Hc.
  apply bind_inv_done in Hc as ([] & s1' & e3 & e4 & Hw & Hr & ->).
  apply write_bytes_inv in Hw as (Bh & E & ->). inversion E; subst s1'; clear E.
  apply ret_inv in Hr as (E & ->). inversion E; subst hlen s1; clear E.
  destruct (decode_base64 (rec_type r) _) as [ty|] eqn:Dty;
    [|apply ret_inv in H0 as (E & _); discriminate].
  apply bind_inv_done in H0 as ([] & s2 & e5 & e6 & Hw & H0 & ->).
  apply write_bytes_inv in Hw as (Bt & E & ->). inversion E; subst s2; clear E.
  apply bind_inv_done in H0 as ([] & s3 & e7 & e8 & Hw & H0 & ->).
  apply write_bytes_inv in Hw as (Btl & E & ->). inversion E; subst s3; clear E.
  apply bind_inv_done in H0 as (ro & s4 & e9 & e10 & Hid & H0 & ->).
  destruct ro as [off2|]; [|apply ret_inv in H0 as (E & _); discriminate].
  destruct (decode_base64 (rec_payload r) _) as [pl|] eqn:Dpl;
    [|apply ret_inv in H0 as (E & _); discriminate].
  apply bind_inv_done in H0 as ([] & s5 & e11 & e12 & Hw & H0 & ->).
  apply write_bytes_inv in Hw as (Bp & E & ->). inversion E; subst s5; clear E.
  destruct ((255 <? Z.of_nat (length pl)) && has flags NDEF_FLAG_SR) eqn:Hsrlen.
  { apply bind_inv_done in H0 as ([] & s6 & e13 & e14 & _ & H0 & ->).
    apply ret_inv in H0 as (E & _); discriminate. }
  apply bind_inv_done in H0 as ([] & s6 & e13 & e14 & Hpl & H0 & ->).
  apply ret_inv in H0 as (E & ->). inversion E; subst off' buf'; clear E.
  unfold ndef_rec_set_payload_len in Hpl.
  apply bind_inv_done in Hpl as (fb & s7 & e15 & e16 & Hrd & Hpl & ->).
  apply read_byte_inv in Hrd as (fb' & Hfb & E & ->). inversion E; subst fb' s7; clear E.
  apply decode_base64_dec in Dty as Ety. destruct Ety as [Ety Cty].
  apply decode_base64_dec in Dpl as Epl. destruct Epl as [Epl Cpl].
  rewrite Ety, Epl.
  unfold ndef_rec_set_id_len, ndef_hdr, ndef_hdr_len, plen_size, ilen_size,
    sizeof_ndef_rec, be32 in *.
  destruct (has flags NDEF_FLAG_SR) eqn:Hsr; destruct (has flags NDEF_FLAG_IL) eqn:Hil;
    cbn [app length Nat.add] in *; rewrite length_app in Bh;
    repeat (destruct rest as [|? rest]; [exfalso; simpl in Bh; lia | simpl in Bh]);
    norm.
  all: try (destruct (decode_base64 (rec_id r) _) as [idb|] eqn:Did;
      [|apply ret_inv in Hid as (E & _); discriminate];
    apply bind_inv_done in Hid as ([] & s5 & e17 & e18 & Hw & Hid & ->);
    apply write_bytes_inv in Hw as (Bi & E & ->); inversion E; subst s5; clear E;
    apply bind_inv_done in Hid as ([] & s5 & e21 & e22 & Hw & Hid & ->);
    apply ret_inv in Hid as (E & ->); inversion E; subst off2 s4; clear E;
    apply bind_inv_done in Hw as (fb2 & s6' & e19 & e20 & Hrd & Hw & ->);
    apply read_byte_inv in Hrd as (fb' & Hfb2 & E & ->); inversion E; subst fb' s6'; clear E;
    norm;
    rewrite nth_error_app2, Nat.sub_diag in Hfb2 by lia; cbn in Hfb2;
    inversion Hfb2; subst fb2; clear Hfb2;
    rewrite has_hdr_byte_SR, Hsr in Hw;
    apply write_bytes_inv in Hw as (Bil & E & ->); inversion E; subst s5; clear E;
    apply decode_base64_dec in Did as Eid; destruct Eid as [Eid Cid]; rewrite Eid).
  all: try (apply ret_inv in Hid as (E & ->); inversion E; subst off2 s4; clear E).
  all: norm;
    rewrite nth_error_app2, Nat.sub_diag in Hfb by lia; cbn in Hfb;
    inversion Hfb; subst fb; clear Hfb;
    rewrite has_hdr_byte_SR, Hsr in Hpl;
    apply write_bytes_inv in Hpl as (Bpl & E & ->); inversion E; subst s6; clear E;
    norm.
  all: repeat rewrite length_app in *; cbn [length] in *;
    repeat rewrite length_app in *; repeat rewrite length_skipn in *.
  all: repeat split; rewrite ?Nat.add_0_r in *; auto; try lia.
  all: rewrite ?skipn3, ?skipn2, <- ?app_assoc; cbn [app]; reflexivity.
Qed.

Lemma build_ndef_loop_inv todo : forall record i n len pre rest off' buf' ev,
  build_ndef_loop todo record i n len (length pre) (pre ++ rest)
  = (Done (Some off', buf'), ev) ->
  (todo <= length record)%nat /\
  let w := ndef_msg_wire (firstn todo record) i n in
  buf' = pre ++ w ++ skipn (length w) rest /\
  off' = (length pre + length w)%nat /\
  (length w <= length rest)%nat /\
  ev = [] /\
  forall k r, nth_error (firstn todo record) k = Some r ->
    rec_decodes len r (i + k) n
      (length pre + length (ndef_msg_wire (firstn k (firstn todo record)) i n)).
Proof.
  induction todo as [|todo IH]; intros record i n len pre rest off' buf' ev Hb.
  - cbn in Hb. inversion Hb; subst. cbn. split; [lia|]. split; [reflexivity|].
    split; [lia|]. split; [lia|]. split; [reflexivity|].
    intros [|k] r Hk; discriminate.
  - cbn [build_ndef_loop] in Hb. destruct record as [|r record]; [discriminate|].
    apply bind_inv_done in Hb as (res & s1 & e1 & e2 & Hr & Hb & ->).
    destruct res as [off1|]; [|apply ret_inv in Hb as (E & _); discriminate].
    apply build_ndef_rec_inv in Hr as (D1 & D2 & D3 & D4 & -> & -> & Hl & ->).
    rewrite <- length_app, app_assoc in Hb.
    apply IH in Hb as (Ht & -> & -> & Hl2 & -> & Hk).
    cbn [firstn ndef_msg_wire length].
    rewrite length_skipn in Hl2.
    split; [lia|]. split; [|split; [|split; [|split; [reflexivity|]]]].
    + rewrite skipn2, <- !app_assoc, !length_app. reflexivity.
    + rewrite !length_app. lia.
    + rewrite length_app. lia.
    + intros [|k] r' Hn.
      * cbn in Hn. inversion Hn; subst r'. cbn. rewrite !Nat.add_0_r.
        unfold rec_decodes. auto.
      * cbn in Hn. apply Hk in Hn. cbn [firstn ndef_msg_wire].
        rewrite !length_app in *.
        replace (i + S k)%nat with (S i + k)%nat by lia.
        now rewrite Nat.add_assoc.
Qed.

Lemma build_ndef_msg_inv record n len buf off buf' ev :
  build_ndef_msg record n len buf = (Done (Some off, buf'), ev) ->
  (n <= length record)%nat /\
  firstn off buf' = ndef_msg_wire (firstn n record) 0 n /\
  off = length (ndef_msg_wire (firstn n record) 0 n) /\
  length buf' = length buf /\
  ev = [] /\
  forall k r, (k < n)%nat -> nth_error record k = Some r ->
    rec_decodes len r k n (ndef_rec_offset record n k).
Proof.
  unfold build_ndef_msg. intros Hb.
  apply (build_ndef_loop_inv n record 0 n len [] buf) in Hb
    as (Hn & -> & -> & Hl & -> & Hk).
  cbn [app length Nat.add].
  split; [assumption|]. split; [|split; [reflexivity|split; [|split; [reflexivity|]]]].
  - rewrite firstn_app, Nat.sub_diag, firstn_all. cbn. now rewrite app_nil_r.
  - rewrite length_app, length_skipn. lia.
  - intros k r Hlt Hr. specialize (Hk k r).
    rewrite nth_error_firstn in Hk.
    destruct (Nat.ltb_spec k n); [|lia].
    specialize (Hk Hr). cbn in Hk. unfold ndef_rec_offset.
    rewrite firstn_firstn in Hk. now rewrite Nat.min_l in Hk by lia.
Qed.

Lemma ndef_flags_testbit r i n k :
  0 <= k < 8 ->
  Z.testbit (ndef_flags r i n) k =
  Z.testbit (rec_flags r) k
  || Z.testbit (NDEF_FLAG_MB * Z.b2z (i =? 0)%nat) k
  || Z.testbit (NDEF_FLAG_ME * Z.b2z (i + 1 =? n)%nat) k
  || Z.testbit (NDEF_FLAG_IL * Z.b2z (negb (strlen (rec_id r) =? 0)%nat)) k.
Proof.
  intros Hk. unfold ndef_flags. cbv zeta.
  change 256 with (2 ^ 8). rewrite Z.mod_pow2_bits_low by lia.
  now rewrite !Z.lor_spec.
Qed.

Lemma ndef_flags_MB r i n :
  has (ndef_flags r i n) NDEF_FLAG_MB = has (rec_flags r) NDEF_FLAG_MB || (i =? 0)%nat.
Proof.
  rewrite !has_MB, ndef_flags_testbit by lia.
  destruct (i =? 0)%nat, (i + 1 =? n)%nat, (strlen (rec_id r) =? 0)%nat; cbn;
    now rewrite ?orb_false_r, ?orb_true_r.
Qed.

Lemma ndef_flags_ME r i n :
  has (ndef_flags r i n) NDEF_FLAG_ME = has (rec_flags r) NDEF_FLAG_ME || (i + 1 =? n)%nat.
Proof.
  rewrite !has_ME, ndef_flags_testbit by lia.
  destruct (i =? 0)%nat, (i + 1 =? n)%nat, (strlen (rec_id r) =? 0)%nat; cbn;
    now rewrite ?orb_false_r, ?orb_true_r.
Qed.

Lemma ndef_flags_IL r i n :
  has (ndef_flags r i n) NDEF_FLAG_IL =
  has (rec_flags r) NDEF_FLAG_IL || negb (strlen (rec_id r) =? 0)%nat.
Proof.
  rewrite !has_IL, ndef_flags_testbit by lia.
  destruct (i =? 0)%nat, (i + 1 =? n)%nat, (strlen (rec_id r) =? 0)%nat; cbn;
    now rewrite ?orb_false_r, ?orb_true_r.
Qed.

Lemma ndef_flags_SR r i n :
  has (ndef_flags r i n) NDEF_FLAG_SR = has (rec_flags r) NDEF_FLAG_SR.
Proof.
  rewrite !has_SR, ndef_flags_testbit by lia.
  destruct (i =? 0)%nat, (i + 1 =? n)%nat, (strlen (rec_id r) =? 0)%nat; cbn;
    now rewrite ?orb_false_r, ?orb_true_r.
Qed.

Lemma ndef_rec_wire_hd r i n :
  exists tl, ndef_rec_wire r i n = ndef_hdr_byte (ndef_flags r i n) (rec_tnf r) :: tl.
Proof. unfold ndef_rec_wire, ndef_hdr. cbn. eauto. Qed.

Lemma ndef_msg_wire_app a b i n :
  ndef_msg_wire (a ++ b) i n = ndef_msg_wire a i n ++ ndef_msg_wire b (length a + i) n.
Proof.
  revert i; induction a as [|r a IH]; intros i; cbn [ndef_msg_wire app length Nat.add];
    [reflexivity|].
  rewrite IH, <- app_assoc. replace (length a + S i)%nat with (S (length a + i)) by lia.
  reflexivity.
Qed.

Lemma ndef_msg_wire_nth record n k r :
  (k < n)%nat -> nth_error record k = Some r ->
  exists tl,
    skipn (ndef_rec_offset record n k) (ndef_msg_wire (firstn n record) 0 n)
    = ndef_hdr_byte (ndef_flags r k n) (rec_tnf r) :: tl.
Proof.
  intros Hk Hr. unfold ndef_rec_offset.
  apply nth_error_split in Hr as (a & b & -> & <-).
  rewrite firstn_app, Nat.sub_diag, firstn_all, app_nil_r. cbn [firstn].
  rewrite firstn_app. rewrite firstn_all2 by lia.
  rewrite ndef_msg_wire_app.
  rewrite skipn_app, Nat.sub_diag, skipn_all. cbn [app skipn].
  replace (n - length a)%nat with (S (n - length a - 1)) by lia.
  cbn [firstn ndef_msg_wire]. rewrite Nat.add_0_r.
  destruct (ndef_rec_wire_hd r (length a) n) as [tl ->]. cbn. eauto.
Qed.
End Wire.


Lemma length_ndef_hdr flags tnf tl pl il :
  length (ndef_hdr flags tnf tl pl il) = ndef_hdr_len flags.
Proof.
  unfold ndef_hdr, ndef_hdr_len, plen_size, ilen_size, sizeof_ndef_rec.
  destruct (has flags NDEF_FLAG_SR), (has flags NDEF_FLAG_IL); reflexivity.
Qed.



Section Hdr.
Variables (pre X : list Z) (flags tnf tl pl il : Z).
Let mem := pre ++ ndef_hdr flags tnf tl pl il ++ X.




End Hdr.

Section Report.
Context `{Base64}.



End Report.

Section Loop.
Context `{Base64}.

Lemma nfc_recv_process_ndef_loop_step mem remain ndef base64 :
  nfc_recv_process_ndef_loop mem remain ndef base64 =
  if remain =? 0 then (Done 0, [Log_msg ("]" ++ CRLF) []])
  else if remain <? Z.of_nat sizeof_ndef_rec then (Done (-1), [])
  else match nfc_recv_process_ndef_rec mem ndef base64 with
       | None => (Undefined, [])
       | Some (entry, reclen, base64') =>
         let remain' := remain - Z.of_nat reclen in
         let (r, ev) :=
             nfc_recv_process_ndef_loop mem remain' (ndef + reclen)%nat base64' in
         (r, entry :: (if remain' =? 0 then [] else [Log_msg "," []]) ++ ev)
       end.
Proof.
  funelim (nfc_recv_process_ndef_loop mem remain ndef base64).
  - destruct (Z.eqb_spec remain 0); [reflexivity|contradiction].
  - destruct (Z.eqb_spec remain 0); [contradiction|].
    destruct (Z.ltb_spec remain (Z.of_nat sizeof_ndef_rec)); [reflexivity|lia].
  - destruct (Z.eqb_spec remain 0); [contradiction|].
    destruct (Z.ltb_spec remain (Z.of_nat sizeof_ndef_rec)); [lia|].
    rewrite e. reflexivity.
  - destruct (Z.eqb_spec remain 0); [contradiction|].
    destruct (Z.ltb_spec remain (Z.of_nat sizeof_ndef_rec)); [lia|].
    rewrite e. reflexivity.
Qed.


End Loop.

Section LexerFacts.
Context {St : Type} `{Libc} `{Consts}.

Local Abbreviation silent := (@silent St _).

Lemma silent_ret {A} (o : option A) : silent (ret o).
Proof. intros s x s' ev E. inversion E; auto. Qed.

Lemma silent_log {A} fmt args : silent (log_err fmt args ;;; ret (@None A)).
Proof. intros s x s' ev E. inversion E. Qed.

Lemma silent_bind {A B} (m : M St (option A)) (f : option A -> M St (option B)) :
  silent m -> f None = ret None -> (forall a, silent (f (Some a))) -> silent (bind m f).
Proof.
  intros Hm Hn Hf s x s' ev E.
  apply bind_inv_done in E as (a & s1 & e1 & e2 & E1 & E2 & ->).
  destruct a as [a|]; [|rewrite Hn in E2; inversion E2].
  apply Hm in E1 as [-> ->]. apply Hf in E2 as [-> ->]. auto.
Qed.

Lemma silent_lex_token field delim args : silent (lex_token field delim args).
Proof.
  unfold lex_token. destruct (strsep args delim) as [[tok|] a];
    [apply silent_ret | apply silent_log].
Qed.

Lemma silent_parse_token_l field delim args : silent (parse_token_l field delim args).
Proof.
  unfold parse_token_l. apply silent_bind; [apply silent_lex_token|reflexivity|].
  intros [tok a]. destruct (strtol tok) as [v e].
  destruct (negb (e =? 0)); [apply silent_log | apply silent_ret].
Qed.

Lemma silent_parse_token_ul field delim args : silent (parse_token_ul field delim args).
Proof.
  unfold parse_token_ul. apply silent_bind; [apply silent_lex_token|reflexivity|].
  intros [tok a]. destruct (strtoul tok) as [v e].
  destruct (negb (e =? 0)); [apply silent_log | apply silent_ret].
Qed.

Lemma silent_parse_token_s field delim args b : silent (parse_token_s field delim args b).
Proof.
  unfold parse_token_s. apply silent_bind; [apply silent_lex_token|reflexivity|].
  intros [tok a].
  destruct (negb b && (strlen tok =? 0)%nat); [apply silent_log | apply silent_ret].
Qed.

Lemma silent_parse_sap field args b : silent (parse_sap field args b).
Proof.
  unfold parse_sap. apply silent_bind; [apply silent_parse_token_l|reflexivity|].
  intros [sap a].
  destruct ((sap =? -1) && negb b || (sap <? -1) || negb (sap <? LLCP_NUMBER_OF_SAPS));
    [apply silent_log | apply silent_ret].
Qed.

Lemma silent_parse_ndef_rec args r : silent (parse_ndef_rec args r).
Proof.
  unfold parse_ndef_rec. destruct (strsep args "[") as [[p|] a]; [|apply silent_log].
  apply silent_bind; [apply silent_parse_token_ul|reflexivity|]. intros [flags a1].
  destruct (negb (Z.land flags (Z.lnot NDEF_FLAG_BITS) =? 0)); [apply silent_log|].
  apply silent_bind; [apply silent_parse_token_ul|reflexivity|]. intros [tnf a2].
  destruct (negb (tnf <? NDEF_NUMBER_OF_TNFS)); [apply silent_log|].
  apply silent_bind; [apply silent_parse_token_s|reflexivity|]. intros [ty a3].
  apply silent_bind; [apply silent_parse_token_s|reflexivity|]. intros [id a4].
  apply silent_bind; [apply silent_parse_token_s|reflexivity|]. intros [pl a5].
  apply silent_ret.
Qed.

Lemma silent_parse_ndef_loop todo : forall args rec i,
  silent (parse_ndef_loop todo args rec i).
Proof.
  induction todo as [|todo IH]; intros args rec i; cbn [parse_ndef_loop];
    [apply silent_ret|].
  destruct (args_nonempty args); [|apply silent_ret].
  destruct rec as [|r rec]; [intros s x s' ev E; inversion E|].
  apply silent_bind; [apply silent_parse_ndef_rec|reflexivity|]. intros [r' a].
  apply silent_bind; [apply IH|reflexivity|]. intros [[n rec''] a'].
  apply silent_ret.
Qed.

Lemma silent_parse_ndef_msg args nrecs rec : silent (parse_ndef_msg args nrecs rec).
Proof.
  unfold parse_ndef_msg. apply silent_bind; [apply silent_parse_ndef_loop|reflexivity|].
  intros [[n rec''] a'].
  destruct (args_nonempty a'); [apply silent_log | apply silent_ret].
Qed.

End LexerFacts.

Section LexerTheorems.
Context {St : Type} `{Libc} `{Consts}.

(** C4: when the token of the field is a number [v] ([strtol] leaves no
    error), [parse_sap] returns it exactly when [-1 <= v < LLCP_NUMBER_OF_SAPS]
    and, for [v = -1], the caller has marked the field auto-detectable;
    every other value is rejected with the "invalid" diagnostic. *)
Theorem parse_sap_range field args can (s : St) tok args' v :
  strsep args " " = (Some tok, args') ->
  strtol tok = (v, 0) ->
  parse_sap field args can s =
  if (-1 <=? v) && (v <? LLCP_NUMBER_OF_SAPS) && (can || negb (v =? -1))
  then (Done (Some (v, args'), s), [])
  else (Done (None, s),
        [Log_err ("KO: invalid %s '%ld'" ++ CRLF) [AStr field; AInt v]]).
Proof.
  intros Hs Ht. unfold parse_sap, parse_token_l, lex_token, bind, ret, log_err, emit.
  rewrite Hs, Ht. cbn.
  destruct (Z.eqb_spec v (-1)), (Z.ltb_spec v (-1)), (Z.leb_spec (-1) v),
    (Z.ltb_spec v LLCP_NUMBER_OF_SAPS), can; cbn; try reflexivity; lia.
Qed.

(** Whatever the line, a SAP that [parse_sap] returns is in the range. *)
Lemma parse_sap_accepted field args can (s : St) v a s' ev :
  parse_sap field args can s = (Done (Some (v, a), s'), ev) ->
  -1 <= v < LLCP_NUMBER_OF_SAPS /\ (v = -1 -> can = true).
Proof.
  unfold parse_sap. intros E.
  apply bind_inv_done in E as ([[sap a1]|] & s1 & e1 & e2 & _ & E & _); [|inversion E].
  destruct (Z.eqb_spec sap (-1)), (Z.ltb_spec sap (-1)),
    (Z.ltb_spec sap LLCP_NUMBER_OF_SAPS), can; cbn in E; inversion E; subst;
    (split; [lia|intros; (reflexivity || lia)]).
Qed.







End LexerTheorems.

Section DispatchTheorems.
Context `{NfcHost} `{Libc} `{Consts} `{Base64}.

(** C5: for a [put] line whose two SAPs and record list parse,
    [nfc_cmd_snep] makes exactly one call to the host and logs nothing:
    [recv_dta] with [nfc_recv_snep_put_cb] when no record was parsed,
    [send_dta] with [nfc_send_snep_put_cb] otherwise; it returns [-1] when
    that call fails and [0] when it succeeds. *)
Theorem nfc_cmd_snep_put_dispatch line w args dsap args1 w1 e1 ssap args2 w2 e2
        n record args3 w3 e3 :
  strsep (Some line) " " = (Some "put", args) ->
  parse_sap "DSAP" args true w = (Done (Some (dsap, args1), w1), e1) ->
  parse_sap "SSAP" args1 true w1 = (Done (Some (ssap, args2), w2), e2) ->
  parse_ndef_msg args2 4 (snep_record NFC_SNEP_PARAM_INIT) w2
  = (Done (Some (n, record, args3), w3), e3) ->
  let param := {| snep_dsap := dsap; snep_ssap := ssap;
                  snep_nrecords := n; snep_record := record |} in
  nfc_cmd_snep (Some line) w =
  (Done ((if fst (snep_dispatch_result param w) <? 0 then -1 else 0),
         snd (snep_dispatch_result param w)),
   [snep_dispatch param]).
Proof.
  intros Hp P1 P2 P3 param.
  apply silent_parse_sap in P1 as S1. destruct S1 as [-> ->].
  apply silent_parse_sap in P2 as S2. destruct S2 as [-> ->].
  apply silent_parse_ndef_msg in P3 as S3. destruct S3 as [-> ->].
  unfold nfc_cmd_snep. rewrite Hp. cbn [streq String.eqb Ascii.eqb Bool.eqb].
  unfold bind at 1. rewrite P1. unfold bind at 1. rewrite P2.
  unfold bind at 1. rewrite P3.
  unfold snep_dispatch, snep_dispatch_result. fold param. cbn [snep_nrecords param].
  unfold param at 1. cbn [snep_nrecords].
  destruct (n =? 0)%nat; cbn [negb]; unfold bind, call, ret.
  - destruct (cb_recv_dta (Nfc_recv_snep_put_cb param) w) as [res w'].
    cbn [fst snd]. destruct (res <? 0); reflexivity.
  - destruct (cb_send_dta (Nfc_send_snep_put_cb param) w) as [res w'].
    cbn [fst snd]. destruct (res <? 0); reflexivity.
Qed.

(** C10: for an operation keyword other than [set], [clear] and
    [format], [nfc_cmd_tag] returns 0, calls nothing and logs nothing,
    whereas [nfc_cmd_snep], [nfc_cmd_llcp] and [nfc_cmd_nci] return [-1]
    with the "invalid operation" diagnostic on a keyword they do not
    know. *)
Theorem nfc_cmd_tag_unknown_operation record buf line w p args :
  strsep (Some line) " " = (Some p, args) ->
  p <> "set" -> p <> "clear" -> p <> "format" ->
  nfc_cmd_tag record buf (Some line) w = (Done (0, w), []) /\
  (p <> "put" -> nfc_cmd_snep (Some line) w = (Done (-1, w), invalid_operation p)) /\
  (p <> "connect" -> nfc_cmd_llcp (Some line) w = (Done (-1, w), invalid_operation p)) /\
  (p <> "rf_discover_ntf" -> p <> "rf_intf_activated_ntf" ->
   p <> "rf_intf_deactivate_ntf" ->
   nfc_cmd_nci (Some line) w = (Done (-1, w), invalid_operation p)).
Proof.
  intros Hp Hs Hc Hf.
  unfold nfc_cmd_tag, nfc_cmd_snep, nfc_cmd_llcp, nfc_cmd_nci, streq. rewrite Hp.
  apply String.eqb_neq in Hs, Hc, Hf. rewrite Hs, Hc, Hf.
  split; [reflexivity|]. split; [|split].
  - intros Hn. apply String.eqb_neq in Hn. rewrite Hn. reflexivity.
  - intros Hn. apply String.eqb_neq in Hn. rewrite Hn. reflexivity.
  - intros N5 N6 N7. apply String.eqb_neq in N5, N6, N7. rewrite N5, N6, N7. reflexivity.
Qed.

End DispatchTheorems.

Section CallbackTheorems.
Context `{NfcHost}.

(** C6: with an active endpoint, once the SAPs are resolved,
    [nfc_llcp_connect_cb] fails with a diagnostic and sends nothing when the
    DSAP is 0 or the SSAP is 0, whether the zero was given or comes from the
    endpoint; it sends the LLCP connect when both are non-zero, and a
    connect that is sent never carries a zero SAP. *)
Theorem nfc_llcp_connect_cb_zero_sap param w re are :
  active_re (nfc w) = Some re ->
  nth_error (nfc_res w) re = Some are ->
  let d := fst (resolve_saps (llcp_dsap param) (llcp_ssap param) are) in
  let s := snd (resolve_saps (llcp_dsap param) (llcp_ssap param) are) in
  let param' := {| llcp_dsap := d; llcp_ssap := s |} in
  (d = 0 ->
   nfc_llcp_connect_cb param w
   = (Done ((-1, param'), w), [Log_err ("KO: DSAP is 0" ++ CRLF) []])) /\
  (d <> 0 -> s = 0 ->
   nfc_llcp_connect_cb param w
   = (Done ((-1, param'), w), [Log_err ("KO: SSAP is 0" ++ CRLF) []])) /\
  (d <> 0 -> s <> 0 ->
   nfc_llcp_connect_cb param w
   = (Done ((if fst (nfc_re_send_llcp_connect re d s w) <? 0 then -1 else 0, param'),
            snd (nfc_re_send_llcp_connect re d s w)),
      Re_send_llcp_connect re d s
      :: (if fst (nfc_re_send_llcp_connect re d s w) <? 0
          then [Log_err ("KO: LLCP connect failed" ++ CRLF) []] else []))) /\
  (forall dsap ssap,
      In (Some (dsap, ssap)) (map sent_llcp_connect (snd (nfc_llcp_connect_cb param w))) ->
      dsap <> 0 /\ ssap <> 0).
Proof.
  intros Ha Hr d s param'.
  assert (E : nfc_llcp_connect_cb param w =
    if d =? 0 then (Done ((-1, param'), w), [Log_err ("KO: DSAP is 0" ++ CRLF) []])
    else if s =? 0 then (Done ((-1, param'), w), [Log_err ("KO: SSAP is 0" ++ CRLF) []])
    else (Done ((if fst (nfc_re_send_llcp_connect re d s w) <? 0 then -1 else 0, param'),
            snd (nfc_re_send_llcp_connect re d s w)),
      Re_send_llcp_connect re d s
      :: (if fst (nfc_re_send_llcp_connect re d s w) <? 0
          then [Log_err ("KO: LLCP connect failed" ++ CRLF) []] else []))).
  { unfold nfc_llcp_connect_cb, bind, get, deref_re, ret, log_err, emit, call.
    rewrite Ha, Hr. subst param' d s. unfold resolve_saps.
    destruct ((llcp_dsap param <? 0) && (llcp_ssap param <? 0)); cbn [fst snd llcp_dsap llcp_ssap].
    - destruct (last_dsap are =? 0); [reflexivity|].
      destruct (last_ssap are =? 0); [reflexivity|].
      destruct (nfc_re_send_llcp_connect re (last_dsap are) (last_ssap are) w) as [res w'].
      cbn [fst snd]. destruct (res <? 0); reflexivity.
    - destruct param as [pd ps]. cbn [llcp_dsap llcp_ssap].
      destruct (pd =? 0); [reflexivity|].
      destruct (ps =? 0); [reflexivity|].
      destruct (nfc_re_send_llcp_connect re pd ps w) as [res w'].
      cbn [fst snd]. destruct (res <? 0); reflexivity. }
  rewrite E. clear E.
  destruct (Z.eqb_spec d 0) as [Hd|Hd]; [|destruct (Z.eqb_spec s 0) as [Hs|Hs]];
    (split; [|split; [|split]]); try (intros; (reflexivity || congruence)).
  - intros dsap ssap [E|[]]. discriminate.
  - intros dsap ssap [E|[]]. discriminate.
  - intros dsap ssap [E|E]; [inversion E; subst; auto|].
    destruct (fst (nfc_re_send_llcp_connect re d s w) <? 0); cbn in E; intuition discriminate.
Qed.

Lemma snep_resolved_eq param are :
  (if (snep_dsap param <? 0) && (snep_ssap param <? 0)
   then {| snep_dsap := last_dsap are; snep_ssap := last_ssap are;
           snep_nrecords := snep_nrecords param;
           snep_record := snep_record param |}
   else param) = snep_resolved param are.
Proof.
  unfold snep_resolved, resolve_saps.
  destruct ((snep_dsap param <? 0) && (snep_ssap param <? 0)); [reflexivity|].
  destruct param; reflexivity.
Qed.

(** C9, as amended: both [snep put] callbacks fail with a diagnostic, and
    call nothing, when no endpoint is active; with an active endpoint they
    replace the two SAPs by the endpoint's last DSAP and SSAP when both are
    negative, pass them on unchanged as soon as one of them is not, and
    call [nfc_re_send_snep_put] (resp. [nfc_re_recv_snep_put]) with the
    result. *)
Theorem nfc_snep_put_cb_resolve param w :
  (active_re (nfc w) = None ->
   nfc_send_snep_put_cb param w
   = (Done ((-1, param), w), [Log_err ("KO: no active remote endpoint" ++ LF) []]) /\
   nfc_recv_snep_put_cb param w
   = (Done ((-1, param), w), [Log_err ("KO: no active remote endpoint" ++ CRLF) []])) /\
  (forall re are,
      active_re (nfc w) = Some re ->
      nth_error (nfc_res w) re = Some are ->
      let param' := snep_resolved param are in
      let d := snep_dsap param' in
      let s := snep_ssap param' in
      (snep_dsap param < 0 -> snep_ssap param < 0 ->
       d = last_dsap are /\ s = last_ssap are) /\
      (0 <= snep_dsap param \/ 0 <= snep_ssap param ->
       d = snep_dsap param /\ s = snep_ssap param) /\
      nfc_send_snep_put_cb param w
      = (Done ((if fst (nfc_re_send_snep_put re d s param' w) <? 0 then -1
                else fst (nfc_re_send_snep_put re d s param' w), param'),
               snd (nfc_re_send_snep_put re d s param' w)),
         Re_send_snep_put re d s param'
         :: (if fst (nfc_re_send_snep_put re d s param' w) <? 0
             then [Log_err ("KO: 'snep put' failed" ++ CRLF) []] else [])) /\
      nfc_recv_snep_put_cb param w
      = (Done ((if fst (nfc_re_recv_snep_put re d s param' w) <? 0 then -1 else 0,
                param'),
               snd (nfc_re_recv_snep_put re d s param' w)),
         Re_recv_snep_put re d s param'
         :: (if fst (nfc_re_recv_snep_put re d s param' w) <? 0
             then [Log_err ("KO: 'snep put' failed" ++ CRLF) []] else []))).
Proof.
  split.
  - intros Ha. unfold nfc_send_snep_put_cb, nfc_recv_snep_put_cb, bind, get.
    rewrite Ha. split; reflexivity.
  - intros re are Ha Hr param' d s.
    split; [|split; [|split]].
    + intros Hd Hs. subst d s param'. unfold snep_resolved, resolve_saps. cbn.
      destruct (Z.ltb_spec (snep_dsap param) 0); [|lia].
      destruct (Z.ltb_spec (snep_ssap param) 0); [|lia]. cbn. auto.
    + intros Hds. subst d s param'. unfold snep_resolved, resolve_saps. cbn.
      destruct (Z.ltb_spec (snep_dsap param) 0), (Z.ltb_spec (snep_ssap param) 0);
        cbn; auto; lia.
    + unfold nfc_send_snep_put_cb, bind, get, deref_re, ret, log_err, emit, call.
      rewrite Ha, Hr, snep_resolved_eq. fold param'. fold d. fold s.
      destruct (nfc_re_send_snep_put re d s param' w) as [res w'].
      cbn [fst snd]. destruct (res <? 0); reflexivity.
    + unfold nfc_recv_snep_put_cb, bind, get, deref_re, ret, log_err, emit, call.
      rewrite Ha, Hr, snep_resolved_eq. fold param'. fold d. fold s.
      destruct (nfc_re_recv_snep_put re d s param' w) as [res w'].
      cbn [fst snd]. destruct (res <? 0); reflexivity.
Qed.

Lemma nth_error_list_set {A} (l : list A) i x y :
  nth_error l i = Some y -> nth_error (list_set l i x) i = Some x.
Proof.
  revert i; induction l as [|a l IH]; intros [|i] E; cbn in *; try discriminate; auto.
Qed.

(** C7, as amended: [nfc_rf_intf_activated_ntf_cb] changes nothing when it
    fails for want of an endpoint; when it fails because no RF interface
    matches the endpoint's protocol and mode, no RF interface has become
    active and no notification is built, but the endpoint has been through
    [nfc_clear_re] before the selection was tried. *)
Theorem nfc_rf_intf_activated_ntf_cb_no_match param w :
  (ntf_target param w = None ->
   nfc_rf_intf_activated_ntf_cb param w
   = (Done ((-1, param), w), [Log_err ("KO: no active remote-endpoint" ++ LF) []])) /\
  (forall re r,
      ntf_target param w = Some re ->
      nth_error (nfc_res w) re = Some r ->
      active_rf (nfc w) = None ->
      ntf_rf param = -1 ->
      nfc_find_rf_by_protocol_and_mode (nfc w) (rfproto (nfc_clear_re r))
                                       (mode (nfc_clear_re r)) = None ->
      nfc_rf_intf_activated_ntf_cb param w
      = (Done ((-1, set_ntf_re param re),
               {| nfc := {| active_re := active_re (nfc w); active_rf := None;
                            rf := rf (nfc w) |};
                  nfc_res := list_set (nfc_res w) re (nfc_clear_re r);
                  host := host w |}),
         [Clear_re re; Log_err ("KO: no active rf interface" ++ CRLF) []])).
Proof.
  split.
  - unfold ntf_target. intros Ht.
    unfold nfc_rf_intf_activated_ntf_cb, bind, get. rewrite Ht. reflexivity.
  - unfold ntf_target. intros re r Ht Hr Ha Hrf Hfind.
    unfold nfc_rf_intf_activated_ntf_cb, bind, get. rewrite Ht.
    unfold clear_re, bind, deref_re, emit. rewrite Hr. cbn [nfc nfc_res].
    rewrite Ha. cbn [ntf_rf set_ntf_re]. rewrite Hrf, Z.eqb_refl.
    cbn beta iota. cbn [nfc nfc_res].
    rewrite (nth_error_list_set _ _ (nfc_clear_re r) _ Hr).
    unfold set_active_rf. cbn [nfc nfc_res host active_re active_rf rf].
    rewrite Hfind. reflexivity.
Qed.

End CallbackTheorems.

Section BuilderTheorems.
Context `{Base64}.

Lemma has_hdr_byte_MB flags tnf :
  has (ndef_hdr_byte flags tnf) NDEF_FLAG_MB = has flags NDEF_FLAG_MB.
Proof. rewrite !has_MB. apply hdr_byte_testbit; lia. Qed.

Lemma has_hdr_byte_ME flags tnf :
  has (ndef_hdr_byte flags tnf) NDEF_FLAG_ME = has flags NDEF_FLAG_ME.
Proof. rewrite !has_ME. apply hdr_byte_testbit; lia. Qed.

Lemma skipn_cons_nth_error (l : list Z) k x tl :
  skipn k l = x :: tl -> nth_error l k = Some x /\ (k < length l)%nat.
Proof.
  revert l; induction k as [|k IH]; intros [|y l] E; cbn in *; try discriminate.
  - inversion E; subst. split; [reflexivity|lia].
  - apply IH in E as [E Hl]. split; [assumption|lia].
Qed.

(** C1, as amended: when [build_ndef_msg] returns a length, the message
    is the sequence of the records on the wire, and the flag byte of record
    [k] carries the caller's flags with the derived bits OR-ed on: MB is
    set on the first record, ME on the last, IL when the id text is not
    empty, and each of them also wherever the caller's flags have it. *)
Theorem build_ndef_msg_flags record n len buf off buf' ev :
  build_ndef_msg record n len buf = (Done (Some off, buf'), ev) ->
  firstn off buf' = ndef_msg_wire (firstn n record) 0 n /\
  forall k r, (k < n)%nat -> nth_error record k = Some r ->
    exists fb,
      nth_error buf' (ndef_rec_offset record n k) = Some fb /\
      (ndef_rec_offset record n k < off)%nat /\
      has fb NDEF_FLAG_MB = has (rec_flags r) NDEF_FLAG_MB || (k =? 0)%nat /\
      has fb NDEF_FLAG_ME = has (rec_flags r) NDEF_FLAG_ME || (k + 1 =? n)%nat /\
      has fb NDEF_FLAG_IL
      = has (rec_flags r) NDEF_FLAG_IL || negb (strlen (rec_id r) =? 0)%nat.
Proof.
  intros Hb. apply build_ndef_msg_inv in Hb as (Hn & Hw & Ho & _ & _ & _).
  split; [assumption|]. intros k r Hk Hr.
  destruct (ndef_msg_wire_nth record n k r Hk Hr) as [tl Hs].
  apply skipn_cons_nth_error in Hs as [Hs Hl].
  exists (ndef_hdr_byte (ndef_flags r k n) (rec_tnf r)).
  rewrite <- Ho in Hl. rewrite <- Hw in Hs. rewrite nth_error_firstn in Hs.
  destruct (Nat.ltb_spec (ndef_rec_offset record n k) off); [|lia].
  split; [assumption|]. split; [assumption|].
  rewrite has_hdr_byte_MB, has_hdr_byte_ME, has_hdr_byte_IL.
  rewrite ndef_flags_MB, ndef_flags_ME, ndef_flags_IL. auto.
Qed.


End BuilderTheorems.

(** * The behaviour on every input *)

(** ** build_ndef_msg, forwards *)

Ltac norm_goal :=
  repeat (rewrite <- ?Nat.add_assoc, ?store_app, ?store_app0, ?store_0, ?store_front;
          cbn [store Nat.add app length skipn]).

Ltac leb_true :=
  match goal with
  | |- context [(?a <=? ?b)%nat] =>
    let Hc := fresh "Hc" in
    destruct (Nat.leb_spec a b) as [Hc|Hc];
    [| exfalso; repeat rewrite length_app in Hc; cbn [length] in Hc;
       repeat rewrite length_app in Hc; repeat rewrite length_skipn in Hc; lia]
  end.

Section BuilderMore.
Context `{Base64}.

Lemma build_ndef_rec_eval r i n len pre rest :
  rec_decodes len r i n (length pre) ->
  (length (ndef_rec_wire r i n) <= length rest)%nat ->
  build_ndef_rec r i n len (length pre) (pre ++ rest)
  = (Done (Some (length pre + length (ndef_rec_wire r i n))%nat,
           pre ++ ndef_rec_wire r i n ++ skipn (length (ndef_rec_wire r i n)) rest), []).
Proof.
  unfold rec_decodes, ndef_rec_wire, build_ndef_rec.
  set (flags := ndef_flags r i n). cbv zeta.
  set (ty := dec (rec_type r)).
  set (pl := dec (rec_payload r)).
  intros (D1 & D2 & D3 & D4) Hl.
  unfold ndef_create_rec, ndef_rec_set_type_len, ndef_rec_set_payload_len,
    ndef_rec_set_id_len, bind, ret, write_bytes, read_byte.
  unfold ndef_hdr, ndef_hdr_len, plen_size, ilen_size, sizeof_ndef_rec, be32 in *.
  destruct (has flags NDEF_FLAG_SR) eqn:Hsr; destruct (has flags NDEF_FLAG_IL) eqn:Hil;
    cbn [app length Nat.add] in *;
    try (specialize (D2 eq_refl));
    set (idb := dec (rec_id r)) in *;
    rewrite ?length_app in Hl; cbn [length] in Hl;
    repeat (destruct rest as [|? rest]; [exfalso; simpl in Hl; lia | simpl in Hl]).
  all: repeat rewrite <- Nat.add_assoc in D1; repeat rewrite <- Nat.add_assoc in D3;
    cbn [Nat.add] in D1, D3; rewrite ?Nat.add_0_r in D3;
    try (repeat rewrite <- Nat.add_assoc in D2; cbn [Nat.add] in D2).
  all: repeat first
    [ rewrite D1 | rewrite D2 | rewrite D3 | rewrite D4
    | progress norm_goal
    | leb_true
    | rewrite nth_error_app2 by lia; rewrite Nat.sub_diag; cbn [nth_error]
    | rewrite has_hdr_byte_SR, Hsr
    | progress cbn beta iota ].
  all: repeat rewrite length_app; rewrite ?skipn3, ?skipn2, <- ?app_assoc; cbn [app length];
    rewrite ?Nat.add_0_r; reflexivity.
Qed.

Lemma bind_done_nil {S A B} (m : M S A) (f : A -> M S B) s a s' :
  m s = (Done (a, s'), []) -> bind m f s = f a s'.
Proof. unfold bind. intros ->. destruct (f a s'); reflexivity. Qed.

Lemma recs_decode_cons len r record i n off :
  recs_decode len (r :: record) i n off ->
  rec_decodes len r i n off /\
  recs_decode len record (S i) n (off + length (ndef_rec_wire r i n)).
Proof.
  intros Hd. split.
  - specialize (Hd O r eq_refl). cbn in Hd. now rewrite !Nat.add_0_r in Hd.
  - intros k r' Hk. specialize (Hd (S k) r' Hk). cbn [firstn ndef_msg_wire] in Hd.
    rewrite length_app in Hd.
    replace (S i + k)%nat with (i + S k)%nat by lia. now rewrite <- Nat.add_assoc.
Qed.

Lemma build_ndef_loop_app a : forall b t i n len pre rest,
  recs_decode len a i n (length pre) ->
  (length (ndef_msg_wire a i n) <= length rest)%nat ->
  build_ndef_loop (length a + t) (a ++ b) i n len (length pre) (pre ++ rest)
  = build_ndef_loop t b (length a + i) n len
      (length pre + length (ndef_msg_wire a i n))
      (pre ++ ndef_msg_wire a i n ++ skipn (length (ndef_msg_wire a i n)) rest).
Proof.
  induction a as [|r a IH]; intros b t i n len pre rest Hd Hl.
  - cbn. now rewrite Nat.add_0_r.
  - cbn [length Nat.add app build_ndef_loop ndef_msg_wire] in *.
    apply recs_decode_cons in Hd as [Hr Hd]. rewrite length_app in Hl.
    rewrite (bind_done_nil _ _ _ _ _ (build_ndef_rec_eval r i n len pre rest Hr ltac:(lia))).
    rewrite <- length_app, app_assoc.
    rewrite IH.
    + rewrite !length_app, <- !app_assoc, skipn2.
      replace (length a + S i)%nat with (S (length a + i)) by lia.
      now rewrite Nat.add_assoc.
    + now rewrite length_app.
    + rewrite length_skipn. lia.
Qed.

Lemma build_ndef_msg_eval record n len buf :
  (n <= length record)%nat ->
  recs_decode len (firstn n record) 0 n 0 ->
  (length (ndef_msg_wire (firstn n record) 0 n) <= length buf)%nat ->
  build_ndef_msg record n len buf
  = (Done (Some (length (ndef_msg_wire (firstn n record) 0 n)),
           ndef_msg_wire (firstn n record) 0 n
           ++ skipn (length (ndef_msg_wire (firstn n record) 0 n)) buf), []).
Proof.
  intros Hn Hd Hl. unfold build_ndef_msg.
  pose proof (build_ndef_loop_app (firstn n record) (skipn n record) 0 0 n len [] buf Hd Hl)
    as E.
  rewrite firstn_skipn, length_firstn, Nat.min_l, Nat.add_0_r in E by assumption.
  exact E.
Qed.

(** X1: [build_ndef_msg] returns a length exactly when the array has
    [n] records, each of them decodes (type, id when IL is set, payload)
    within the capacity left at its place and passes the SR check, and the
    message fits the memory at [buf]; the length is then that of the
    message, the message is at the front of [buf], the bytes behind it are
    as they were, and nothing is logged. *)
Theorem build_ndef_msg_succeeds record n len buf off buf' ev :
  build_ndef_msg record n len buf = (Done (Some off, buf'), ev)
  <->
  (n <= length record)%nat /\
  recs_decode len (firstn n record) 0 n 0 /\
  (length (ndef_msg_wire (firstn n record) 0 n) <= length buf)%nat /\
  off = length (ndef_msg_wire (firstn n record) 0 n) /\
  buf' = ndef_msg_wire (firstn n record) 0 n
         ++ skipn (length (ndef_msg_wire (firstn n record) 0 n)) buf /\
  ev = [].
Proof.
  split.
  - unfold build_ndef_msg. intros Hb.
    apply (build_ndef_loop_inv n record 0 n len [] buf) in Hb
      as (Hn & -> & -> & Hl & -> & Hk).
    cbn [app length Nat.add] in *.
    split; [assumption|]. split; [exact Hk|]. auto.
  - intros (Hn & Hd & Hl & -> & -> & ->). now apply build_ndef_msg_eval.
Qed.

(** X2: a successful [build_ndef_msg] writes the first [off] bytes and
    nothing else: the memory keeps its size and its bytes from [off] on,
    and the result does not depend on what the memory held before, so a
    buffer that was never initialised (the [buf] of [nfc_cmd_tag]) gives
    the same message. *)
Theorem build_ndef_msg_frame record n len buf off buf' ev :
  build_ndef_msg record n len buf = (Done (Some off, buf'), ev) ->
  (off <= length buf)%nat /\
  length buf' = length buf /\
  skipn off buf' = skipn off buf /\
  ev = [] /\
  forall buf2, length buf2 = length buf ->
    build_ndef_msg record n len buf2 = (Done (Some off, firstn off buf' ++ skipn off buf2), []).
Proof.
  intros Hb.
  pose proof Hb as Hb0.
  unfold build_ndef_msg in Hb.
  apply (build_ndef_loop_inv n record 0 n len [] buf) in Hb as (Hn & -> & -> & Hl & -> & Hk).
  cbn [app length Nat.add] in *.
  set (W := ndef_msg_wire (firstn n record) 0 n) in *.
  split; [assumption|]. split; [rewrite length_app, length_skipn; lia|].
  split; [now rewrite skipn_app, Nat.sub_diag, skipn_all|].
  split; [reflexivity|].
  intros buf2 Hl2.
  rewrite firstn_app, Nat.sub_diag, firstn_all. cbn [firstn]. rewrite app_nil_r.
  unfold build_ndef_msg.
  pose proof (build_ndef_loop_app (firstn n record) (skipn n record) 0 0 n len [] buf2) as E.
  rewrite firstn_skipn, length_firstn, Nat.min_l, Nat.add_0_r in E by assumption.
  cbn [app length Nat.add] in E. fold W in E. rewrite E.
  - reflexivity.
  - intros k r Hr. apply (Hk k r Hr).
  - lia.
Qed.

(** X3: the header of a record is written without a look at the
    capacity: when the records before it have been built and the memory
    at [buf] ends inside its header, [build_ndef_msg] writes outside the
    memory, whatever [len] says. *)
Theorem build_ndef_msg_header_overrun a r b n len buf :
  (length a < n)%nat ->
  recs_decode len a 0 n 0 ->
  (length (ndef_msg_wire a 0 n) <= length buf)%nat ->
  (length buf < length (ndef_msg_wire a 0 n) + ndef_hdr_len (ndef_flags r (length a) n))%nat ->
  build_ndef_msg (a ++ r :: b) n len buf = (Undefined, []).
Proof.
  intros Hn Hd Hl Ho. unfold build_ndef_msg.
  replace n with (length a + S (n - length a - 1))%nat at 1 by lia.
  rewrite (build_ndef_loop_app a (r :: b) _ 0 n len [] buf Hd Hl).
  cbn [app length Nat.add build_ndef_loop]. rewrite Nat.add_0_r.
  unfold bind, build_ndef_rec, ndef_create_rec, bind, write_bytes.
  rewrite length_ndef_hdr, length_app, length_skipn.
  destruct (Nat.leb_spec (length (ndef_msg_wire a 0 n) + ndef_hdr_len (ndef_flags r (length a) n))
     (length (ndef_msg_wire a 0 n) + (length buf - length (ndef_msg_wire a 0 n)))); [lia|].
  reflexivity.
Qed.

(** *** The failures within the capacity *)

Lemma keeps_ret {A} P (Q : A -> Prop) (a : A) : Q a -> keeps P Q (ret a).
Proof. intros Ha s Hs. exists a, s, []. auto. Qed.

Lemma keeps_log {A} P (Q : A -> Prop) fmt args (a : A) :
  Q a -> keeps P Q (log_err fmt args ;;; ret a).
Proof. intros Ha s Hs. do 3 eexists. split; [reflexivity|auto]. Qed.

Lemma keeps_bind {A B} P (Q : A -> Prop) (R : B -> Prop)
      (m : M (list Z) A) (f : A -> M (list Z) B) :
  keeps P Q m -> (forall a, Q a -> keeps P R (f a)) -> keeps P R (bind m f).
Proof.
  intros Hm Hf s Hs. destruct (Hm s Hs) as (a & s1 & e1 & E1 & H1 & Ha).
  destruct (Hf a Ha s1 H1) as (b & s2 & e2 & E2 & H2).
  exists b, s2, (e1 ++ e2). unfold bind. rewrite E1, E2. auto.
Qed.

Lemma length_store (s : list Z) : forall off bs,
  (off + length bs <= length s)%nat -> length (store s off bs) = length s.
Proof.
  induction s as [|x s IH]; intros [|off] bs Hl; cbn in *.
  - destruct bs; cbn in *; [reflexivity|lia].
  - lia.
  - rewrite length_app, length_skipn. cbn [length]. lia.
  - f_equal. apply IH. lia.
Qed.

Lemma nth_error_store_lt (s : list Z) : forall off bs k,
  (k < off)%nat -> nth_error (store s off bs) k = nth_error s k.
Proof.
  induction s as [|x s IH]; intros [|off] bs k Hk; try lia; cbn.
  - reflexivity.
  - destruct k; cbn; [reflexivity|]. apply IH. lia.
Qed.

Lemma nth_error_store_hd (s : list Z) : forall off b bs,
  (off + S (length bs) <= length s)%nat ->
  nth_error (store s off (b :: bs)) off = Some b.
Proof.
  induction s as [|x s IH]; intros [|off] b bs Hl; cbn in *; try lia.
  - reflexivity.
  - apply IH. lia.
Qed.

Lemma keeps_write L ndef hb off bs :
  (ndef < off)%nat -> (off + length bs <= L)%nat ->
  keeps (rec_started L ndef hb) any_result (write_bytes off bs).
Proof.
  intros Ho Hl s [Hs Hb]. unfold write_bytes.
  destruct (Nat.leb_spec (off + length bs) (length s)); [|lia].
  do 3 eexists. split; [reflexivity|]. split; [|exact I]. split.
  - rewrite length_store; lia.
  - now rewrite nth_error_store_lt.
Qed.

Lemma keeps_read L ndef hb {B} (R : B -> Prop) (f : Z -> M (list Z) B) :
  keeps (rec_started L ndef hb) R (f hb) ->
  keeps (rec_started L ndef hb) R (bind (read_byte ndef) f).
Proof.
  intros Hf s Hs. destruct (Hf s Hs) as (b & s2 & e2 & E2 & H2).
  destruct Hs as [Hs Hb]. unfold bind, read_byte. rewrite Hb, E2.
  exists b, s2, e2. auto.
Qed.

Lemma size_sub_le len o : (o <= len)%nat -> size_sub len o <= Z.of_nat len - Z.of_nat o.
Proof. intros Ho. unfold size_sub. apply Z.mod_le; lia. Qed.

Lemma decode_base64_within s len o bs :
  decode_base64 s (size_sub len o) = Some bs -> (o <= len)%nat ->
  (o + length bs <= len)%nat.
Proof.
  intros E Ho. apply decode_base64_dec in E as [_ E].
  pose proof (size_sub_le len o Ho). lia.
Qed.

Lemma ndef_create_rec_starts ndef flags tnf s :
  (ndef + ndef_hdr_len flags <= length s)%nat ->
  exists s', ndef_create_rec ndef flags tnf 0 0 0 s = (Done (ndef_hdr_len flags, s'), [])
             /\ rec_started (length s) ndef (ndef_hdr_byte flags tnf) s'.
Proof.
  intros Hl.
  pose proof (length_ndef_hdr flags tnf 0 0 0) as Hlen.
  unfold ndef_create_rec, bind, write_bytes, ret. rewrite Hlen.
  destruct (Nat.leb_spec (ndef + ndef_hdr_len flags) (length s)); [|lia].
  eexists. split; [reflexivity|]. split; [apply length_store; rewrite Hlen; lia|].
  revert Hlen. unfold ndef_hdr. cbn [app]. intros Hlen.
  apply nth_error_store_hd. cbn [length] in *. lia.
Qed.

Lemma build_ndef_rec_returns r i n len ndef s :
  (ndef + ndef_hdr_len (ndef_flags r i n) <= len)%nat ->
  (len <= length s)%nat ->
  exists res s' ev,
    build_ndef_rec r i n len ndef s = (Done (res, s'), ev) /\ length s' = length s.
Proof.
  intros Hh Hl. unfold build_ndef_rec. cbv zeta.
  set (flags := ndef_flags r i n) in *.
  set (L := length s) in *.
  set (hb := ndef_hdr_byte flags (rec_tnf r)).
  destruct (ndef_create_rec_starts ndef flags (rec_tnf r) s ltac:(lia)) as (s1 & E1 & Hs).
  fold L hb in Hs.
  rewrite (bind_done_nil _ _ _ _ _ E1).
  match goal with
  | |- exists res s' ev, ?m s1 = _ /\ _ =>
    assert (K : keeps (rec_started L ndef hb) any_result m)
  end.
  { assert (Hh2 : (2 <= ndef_hdr_len flags)%nat) by (unfold ndef_hdr_len, sizeof_ndef_rec; lia).
    destruct (decode_base64 (rec_type r) _) as [ty|] eqn:Et; [|now apply keeps_ret].
    apply decode_base64_within in Et; [|lia].
    apply (keeps_bind _ any_result); [apply keeps_write; lia|]. intros _ _.
    apply (keeps_bind _ any_result);
      [unfold ndef_rec_set_type_len; apply keeps_write; cbn [length]; lia|]. intros _ _.
    apply (keeps_bind _ (fun r0 : option nat =>
                           match r0 with
                           | Some off => (ndef + ndef_hdr_len flags <= off <= len)%nat
                           | None => True
                           end)).
    - destruct (has flags NDEF_FLAG_IL) eqn:Hil; [|apply keeps_ret; lia].
      destruct (decode_base64 (rec_id r) _) as [idb|] eqn:Ei; [|now apply keeps_ret].
      apply decode_base64_within in Ei; [|lia].
      apply (keeps_bind _ any_result); [apply keeps_write; lia|]. intros _ _.
      apply (keeps_bind _ any_result); [|intros _ _; apply keeps_ret; lia].
      unfold ndef_rec_set_id_len. apply keeps_read.
      unfold hb, plen_size. rewrite has_hdr_byte_SR.
      unfold ndef_hdr_len, plen_size, ilen_size, sizeof_ndef_rec in *. rewrite Hil in *.
      destruct (has flags NDEF_FLAG_SR); apply keeps_write; cbn [length]; lia.
    - intros [off|] Ho; [|now apply keeps_ret].
      destruct (decode_base64 (rec_payload r) _) as [pl|] eqn:Ep; [|now apply keeps_ret].
      apply decode_base64_within in Ep; [|lia].
      apply (keeps_bind _ any_result); [apply keeps_write; lia|]. intros _ _.
      destruct ((255 <? Z.of_nat (length pl)) && has flags NDEF_FLAG_SR);
        [now apply keeps_log|].
      apply (keeps_bind _ any_result); [|intros _ _; now apply keeps_ret].
      unfold ndef_rec_set_payload_len. apply keeps_read.
      unfold hb. rewrite has_hdr_byte_SR.
      unfold ndef_hdr_len, plen_size, sizeof_ndef_rec in *.
      destruct (has flags NDEF_FLAG_SR); apply keeps_write; cbn [length];
        rewrite ?length_be32; lia. }
  destruct (K s1 Hs) as (res & s' & ev & E & [Hl' _] & _).
  exists res, s', ev. split; [exact E|exact Hl'].
Qed.

Lemma length_ndef_rec_wire_hdr r i n :
  (ndef_hdr_len (ndef_flags r i n) <= length (ndef_rec_wire r i n))%nat.
Proof. unfold ndef_rec_wire. cbv zeta. rewrite length_app, length_ndef_hdr. lia. Qed.

Lemma build_ndef_loop_refused k : forall todo record i n len pre rest r,
  (k < todo)%nat -> nth_error record k = Some r ->
  (len <= length (pre ++ rest))%nat ->
  let off := (length pre + length (ndef_msg_wire (firstn k record) i n))%nat in
  (off + ndef_hdr_len (ndef_flags r (i + k) n) <= len)%nat ->
  rec_refused len r (i + k) n off ->
  exists buf' ev,
    build_ndef_loop todo record i n len (length pre) (pre ++ rest) = (Done (None, buf'), ev).
Proof.
  induction k as [|k IH]; intros todo record i n len pre rest r Hk Hr Hl off Ho Hbad;
    (destruct todo as [|todo]; [lia|]);
    (destruct record as [|r0 record]; [discriminate|]); cbn [build_ndef_loop].
  - cbn in Hr. inversion Hr; subst r0. subst off.
    cbn [firstn ndef_msg_wire length] in *.
    replace (i + 0)%nat with i in * by lia.
    replace (length pre + 0)%nat with (length pre) in * by lia.
    destruct (build_ndef_rec_returns r i n len (length pre) (pre ++ rest))
      as (res & s' & ev & E & _); [lia|assumption|].
    destruct res as [off'|].
    + exfalso. apply build_ndef_rec_inv in E as (D1 & D2 & D3 & D4 & _).
      unfold rec_refused in Hbad. cbv zeta in Hbad.
      destruct Hbad as [[Hsr Hlen]|[Ht|[[Hil Hi]|Hp]]].
      * rewrite Hsr, andb_true_r in D4. apply Z.ltb_ge in D4. lia.
      * congruence.
      * specialize (D2 Hil). congruence.
      * congruence.
    + unfold bind. rewrite E. do 2 eexists. reflexivity.
  - cbn in Hr. subst off. cbn [firstn ndef_msg_wire] in *. rewrite length_app in *.
    pose proof (length_ndef_rec_wire_hdr r0 i n) as Hw.
    destruct (build_ndef_rec_returns r0 i n len (length pre) (pre ++ rest))
      as (res & s' & ev & E & _); [lia|rewrite length_app; lia|].
    unfold bind. rewrite E.
    destruct res as [off'|]; [|do 2 eexists; reflexivity].
    apply build_ndef_rec_inv in E as (_ & _ & _ & _ & -> & -> & Hfit & ->).
    rewrite <- length_app, app_assoc.
    destruct (IH todo record (S i) n len (pre ++ ndef_rec_wire r0 i n)
                 (skipn (length (ndef_rec_wire r0 i n)) rest) r) as (buf' & ev & E).
    + lia.
    + assumption.
    + rewrite !length_app, length_skipn in *. lia.
    + rewrite length_app. replace (S i + k)%nat with (i + S k)%nat by lia. lia.
    + rewrite length_app. replace (S i + k)%nat with (i + S k)%nat by lia.
      rewrite <- Nat.add_assoc. exact Hbad.
    + rewrite E. do 2 eexists. reflexivity.
Qed.

(** X20: [build_ndef_msg] returns [-1] when the memory at [buf] has at
    least [len] bytes, the header of record [k] ends within [len], and
    record [k] has SR in its flags and a decoded payload of more than 255
    bytes, or its type, its id (decoded when IL is set) or its payload
    does not decode within the capacity that is left: no write leaves the
    memory, whatever the records before it are. *)
Theorem build_ndef_msg_refuses record n len buf k r :
  (k < n)%nat -> nth_error record k = Some r ->
  (len <= length buf)%nat ->
  (ndef_rec_offset record n k + ndef_hdr_len (ndef_flags r k n) <= len)%nat ->
  rec_refused len r k n (ndef_rec_offset record n k) ->
  exists buf' ev, build_ndef_msg record n len buf = (Done (None, buf'), ev).
Proof.
  intros Hk Hr Hl Ho Hbad. unfold build_ndef_msg.
  exact (build_ndef_loop_refused k n record 0 n len [] buf r Hk Hr Hl Ho Hbad).
Qed.

End BuilderMore.

(** ** What build_ndef_msg logs *)









Section BuilderTrace.
Context `{Base64}.




End BuilderTrace.

(** ** The parsers *)

Section LexerReports.
Context {St : Type} `{Libc} `{Consts}.

Local Abbreviation reports := (@reports St _).

Lemma reports_ret {A} (a : A) : reports (ret (Some a)).
Proof. intros s. left. eexists. reflexivity. Qed.

Lemma reports_log {A} fmt args : reports (log_err fmt args ;;; ret (@None A)).
Proof. intros s. right. do 2 eexists. reflexivity. Qed.

Lemma reports_bind {A B} (m : M St (option A)) (f : option A -> M St (option B)) :
  reports m -> f None = ret None -> (forall a, reports (f (Some a))) -> reports (bind m f).
Proof.
  intros Hm Hn Hf s. unfold bind.
  destruct (Hm s) as [[x ->]|(fmt & args & ->)].
  - destruct (Hf x s) as [[y ->]|(fmt & args & ->)]; [left|right]; cbn; eauto.
  - rewrite Hn. right. cbn. eauto.
Qed.

Lemma reports_lex_token field delim args : reports (lex_token field delim args).
Proof.
  unfold lex_token. destruct (strsep args delim) as [[tok|] a];
    [apply reports_ret | apply reports_log].
Qed.

Lemma reports_parse_token_l field delim args : reports (parse_token_l field delim args).
Proof.
  unfold parse_token_l. apply reports_bind; [apply reports_lex_token|reflexivity|].
  intros [tok a]. destruct (strtol tok) as [v e].
  destruct (negb (e =? 0)); [apply reports_log | apply reports_ret].
Qed.

Lemma reports_parse_token_ul field delim args : reports (parse_token_ul field delim args).
Proof.
  unfold parse_token_ul. apply reports_bind; [apply reports_lex_token|reflexivity|].
  intros [tok a]. destruct (strtoul tok) as [v e].
  destruct (negb (e =? 0)); [apply reports_log | apply reports_ret].
Qed.

Lemma reports_parse_token_s field delim args b : reports (parse_token_s field delim args b).
Proof.
  unfold parse_token_s. apply reports_bind; [apply reports_lex_token|reflexivity|].
  intros [tok a].
  destruct (negb b && (strlen tok =? 0)%nat); [apply reports_log | apply reports_ret].
Qed.

Lemma reports_parse_sap field args b : reports (parse_sap field args b).
Proof.
  unfold parse_sap. apply reports_bind; [apply reports_parse_token_l|reflexivity|].
  intros [sap a].
  destruct ((sap =? -1) && negb b || (sap <? -1) || negb (sap <? LLCP_NUMBER_OF_SAPS));
    [apply reports_log | apply reports_ret].
Qed.

Lemma reports_parse_re_index args nres : reports (parse_re_index args nres).
Proof.
  unfold parse_re_index. apply reports_bind; [apply reports_parse_token_ul|reflexivity|].
  intros [i a]. destruct (negb (i <? nres)); [apply reports_log | apply reports_ret].
Qed.

Lemma reports_parse_rf_index args : reports (parse_rf_index args).
Proof.
  unfold parse_rf_index. apply reports_bind; [apply reports_parse_token_l|reflexivity|].
  intros [i a].
  destruct ((i <? -1) || (NUMBER_OF_SUPPORTED_NCI_RF_INTERFACES <=? i));
    [apply reports_log | apply reports_ret].
Qed.

Lemma reports_parse_nci_ntf_type args : reports (parse_nci_ntf_type args).
Proof.
  unfold parse_nci_ntf_type. apply reports_bind; [apply reports_parse_token_ul|reflexivity|].
  intros [i a]. destruct (negb (i <? _)); [apply reports_log | apply reports_ret].
Qed.

Lemma reports_parse_nci_deactivate_ntf_type args :
  reports (parse_nci_deactivate_ntf_type args).
Proof.
  unfold parse_nci_deactivate_ntf_type.
  apply reports_bind; [apply reports_parse_token_ul|reflexivity|].
  intros [i a]. destruct (negb (i <? _)); [apply reports_log | apply reports_ret].
Qed.

Lemma reports_parse_nci_deactivate_ntf_reason args :
  reports (parse_nci_deactivate_ntf_reason args).
Proof.
  unfold parse_nci_deactivate_ntf_reason.
  apply reports_bind; [apply reports_parse_token_ul|reflexivity|].
  intros [i a]. destruct (negb (i <? _)); [apply reports_log | apply reports_ret].
Qed.

Lemma reports_parse_ndef_rec args r : reports (parse_ndef_rec args r).
Proof.
  unfold parse_ndef_rec. destruct (strsep args "[") as [[p|] a]; [|apply reports_log].
  apply reports_bind; [apply reports_parse_token_ul|reflexivity|]. intros [flags a1].
  destruct (negb (Z.land flags (Z.lnot NDEF_FLAG_BITS) =? 0)); [apply reports_log|].
  apply reports_bind; [apply reports_parse_token_ul|reflexivity|]. intros [tnf a2].
  destruct (negb (tnf <? NDEF_NUMBER_OF_TNFS)); [apply reports_log|].
  apply reports_bind; [apply reports_parse_token_s|reflexivity|]. intros [ty a3].
  apply reports_bind; [apply reports_parse_token_s|reflexivity|]. intros [id a4].
  apply reports_bind; [apply reports_parse_token_s|reflexivity|]. intros [pl a5].
  apply reports_ret.
Qed.

Lemma reports_parse_ndef_loop todo : forall args rec i,
  (todo <= length rec)%nat -> reports (parse_ndef_loop todo args rec i).
Proof.
  induction todo as [|todo IH]; intros args rec i Hl; cbn [parse_ndef_loop];
    [apply reports_ret|].
  destruct (args_nonempty args); [|apply reports_ret].
  destruct rec as [|r rec]; [cbn in Hl; lia|].
  apply reports_bind; [apply reports_parse_ndef_rec|reflexivity|]. intros [r' a].
  apply reports_bind; [apply IH; cbn in Hl; lia|reflexivity|]. intros [[n rec''] a'].
  apply reports_ret.
Qed.

Lemma reports_parse_ndef_msg args nrecs rec :
  (nrecs <= length rec)%nat -> reports (parse_ndef_msg args nrecs rec).
Proof.
  intros Hl. unfold parse_ndef_msg.
  apply reports_bind; [now apply reports_parse_ndef_loop|reflexivity|].
  intros [[n rec''] a'].
  destruct (args_nonempty a'); [apply reports_log | apply reports_ret].
Qed.

(** X5: on an array of at least [nrecs] records, [parse_ndef_msg]
    always returns: either the records, having logged nothing, or [-1]
    with exactly one diagnostic; the state is left alone. *)
Theorem parse_ndef_msg_reports args nrecs rec (s : St) :
  (nrecs <= length rec)%nat ->
  (exists x, parse_ndef_msg args nrecs rec s = (Done (Some x, s), []))
  \/ (exists fmt a, parse_ndef_msg args nrecs rec s = (Done (None, s), [Log_err fmt a])).
Proof. intros Hl. exact (reports_parse_ndef_msg args nrecs rec Hl s). Qed.

End LexerReports.

Section LexerPost.
Context {St : Type} `{Libc} `{Consts}.

Lemma parse_token_s_nonempty field delim args (s : St) v a s' ev :
  parse_token_s field delim args false s = (Done (Some (v, a), s'), ev) -> v <> "".
Proof.
  unfold parse_token_s. intros E.
  apply bind_inv_done in E as ([[v0 a0]|] & s1 & e1 & e2 & _ & E & _); [|inversion E].
  cbn [negb andb] in E. destruct v0; cbn in E; inversion E; subst. discriminate.
Qed.

Lemma parse_ndef_rec_fields args r0 (s : St) r a s' ev :
  parse_ndef_rec args r0 s = (Done (Some (r, a), s'), ev) ->
  Z.land (rec_flags r) (Z.lnot NDEF_FLAG_BITS) = 0 /\
  rec_tnf r < NDEF_NUMBER_OF_TNFS /\ rec_type r <> "" /\ rec_payload r <> "".
Proof.
  unfold parse_ndef_rec. destruct (strsep args "[") as [[p|] a0]; [|intros E; inversion E].
  intros E. apply bind_inv_done in E as ([[flags a1]|] & s1 & e1 & e2 & _ & E & _);
    [|inversion E].
  destruct (Z.eqb_spec (Z.land flags (Z.lnot NDEF_FLAG_BITS)) 0) as [Hf|]; [|inversion E].
  cbn [negb] in E.
  apply bind_inv_done in E as ([[tnf a2]|] & s2 & e3 & e4 & _ & E & _); [|inversion E].
  destruct (Z.ltb_spec tnf NDEF_NUMBER_OF_TNFS) as [Ht|]; [|inversion E].
  cbn [negb] in E.
  apply bind_inv_done in E as ([[ty a3]|] & s3 & e5 & e6 & Ety & E & _); [|inversion E].
  apply bind_inv_done in E as ([[id a4]|] & s4 & e7 & e8 & _ & E & _); [|inversion E].
  apply bind_inv_done in E as ([[pl a5]|] & s5 & e9 & e10 & Epl & E & _); [|inversion E].
  inversion E; subst. cbn.
  apply parse_token_s_nonempty in Ety, Epl. auto.
Qed.

Lemma parse_ndef_loop_post todo : forall args rec i (s : St) n rec' a s' ev,
  parse_ndef_loop todo args rec i s = (Done (Some (n, rec', a), s'), ev) ->
  (i <= n <= i + todo)%nat /\
  length rec' = length rec /\
  skipn (n - i) rec' = skipn (n - i) rec /\
  (0 < todo -> (n = i <-> args_nonempty args = false))%nat /\
  forall k r, (k < n - i)%nat -> nth_error rec' k = Some r ->
    Z.land (rec_flags r) (Z.lnot NDEF_FLAG_BITS) = 0 /\
    rec_tnf r < NDEF_NUMBER_OF_TNFS /\ rec_type r <> "" /\ rec_payload r <> "".
Proof.
  induction todo as [|todo IH]; intros args rec i s n rec' a s' ev E; cbn [parse_ndef_loop] in E.
  - inversion E; subst. rewrite Nat.sub_diag.
    split; [lia|]. split; [reflexivity|]. split; [reflexivity|]. split; [lia|].
    intros k r Hk. lia.
  - destruct (args_nonempty args) eqn:Ha.
    2:{ inversion E; subst. rewrite Nat.sub_diag.
        split; [lia|]. split; [reflexivity|]. split; [reflexivity|].
        split; [intros _; split; auto|]. intros k r Hk. lia. }
    destruct rec as [|r0 rec]; [inversion E|].
    apply bind_inv_done in E as ([[r1 a1]|] & s1 & e1 & e2 & E1 & E & _); [|inversion E].
    apply bind_inv_done in E as ([[[n2 rec2] a2]|] & s2 & e3 & e4 & E2 & E & _); [|inversion E].
    inversion E; subst. apply IH in E2 as (Hn & Hlen & Hsk & _ & Hk).
    apply parse_ndef_rec_fields in E1.
    split; [lia|]. split; [cbn; lia|]. split.
    { replace (n - i)%nat with (S (n - S i)) by lia. exact Hsk. }
    split; [intros _; split; [lia|discriminate]|].
    intros [|k] r Hlt Hr; cbn in Hr.
    + inversion Hr; subst; assumption.
    + apply (Hk k); [lia|assumption].
Qed.

(** X6: what [parse_ndef_msg] returns: at most [nrecs] records, in an
    array of the same size whose entries from [n] on are untouched; the
    line is used up; no record is returned exactly when the line was empty;
    and each record has flags within [NDEF_FLAG_BITS], a TNF below
    [NDEF_NUMBER_OF_TNFS], and a type and a payload that are not empty. *)
Theorem parse_ndef_msg_post args nrecs rec (s : St) n rec' a s' ev :
  parse_ndef_msg args nrecs rec s = (Done (Some (n, rec', a), s'), ev) ->
  (n <= nrecs)%nat /\
  length rec' = length rec /\
  skipn n rec' = skipn n rec /\
  args_nonempty a = false /\
  (0 < nrecs -> (n = 0 <-> args_nonempty args = false))%nat /\
  forall k r, (k < n)%nat -> nth_error rec' k = Some r ->
    Z.land (rec_flags r) (Z.lnot NDEF_FLAG_BITS) = 0 /\
    rec_tnf r < NDEF_NUMBER_OF_TNFS /\ rec_type r <> "" /\ rec_payload r <> "".
Proof.
  unfold parse_ndef_msg. intros E.
  apply bind_inv_done in E as ([[[n2 rec2] a2]|] & s2 & e3 & e4 & E2 & E & _); [|inversion E].
  destruct (args_nonempty a2) eqn:Ha; [inversion E|]. inversion E; subst.
  apply parse_ndef_loop_post in E2 as (Hn & Hlen & Hsk & Hz & Hk).
  rewrite Nat.sub_0_r in *.
  split; [lia|]. split; [assumption|]. split; [assumption|]. split; [assumption|].
  split; [assumption|]. exact Hk.
Qed.

Lemma bind_eq_done {S A B} (m : M S A) (f : A -> M S B) s a s1 e1 r e2 :
  m s = (Done (a, s1), e1) -> f a s1 = (r, e2) -> bind m f s = (r, e1 ++ e2).
Proof. unfold bind. intros -> ->. reflexivity. Qed.

Lemma parse_ndef_rec_frame args r0 r2 (s : St) x s' ev :
  parse_ndef_rec args r0 s = (Done (Some x, s'), ev) ->
  parse_ndef_rec args r2 s = (Done (Some x, s'), ev).
Proof.
  unfold parse_ndef_rec. destruct (strsep args "[") as [[p|] a0]; [|intros E; inversion E].
  intros E.
  apply bind_inv_done in E as ([[flags a1]|] & s1 & e1 & e2 & E1 & E & ->); [|inversion E].
  apply (bind_eq_done _ _ _ _ _ _ _ _ E1).
  destruct (negb (Z.land flags (Z.lnot NDEF_FLAG_BITS) =? 0)); [inversion E|].
  apply bind_inv_done in E as ([[tnf a2]|] & s2 & e3 & e4 & E2 & E & ->); [|inversion E].
  apply (bind_eq_done _ _ _ _ _ _ _ _ E2).
  destruct (negb (tnf <? NDEF_NUMBER_OF_TNFS)); [inversion E|]. exact E.
Qed.

Lemma parse_ndef_loop_frame todo : forall args rec rec2 i (s : St) n rec' a s' ev,
  parse_ndef_loop todo args rec i s = (Done (Some (n, rec', a), s'), ev) ->
  length rec2 = length rec ->
  parse_ndef_loop todo args rec2 i s
  = (Done (Some (n, firstn (n - i) rec' ++ skipn (n - i) rec2, a), s'), ev).
Proof.
  induction todo as [|todo IH]; intros args rec rec2 i s n rec' a s' ev E Hl;
    cbn [parse_ndef_loop] in *.
  - inversion E; subst. rewrite Nat.sub_diag. reflexivity.
  - destruct (args_nonempty args).
    2:{ inversion E; subst. rewrite Nat.sub_diag. reflexivity. }
    destruct rec as [|r0 rec]; [inversion E|].
    destruct rec2 as [|r2 rec2]; [discriminate|].
    apply bind_inv_done in E as ([[r1 a1]|] & s1 & e1 & e2 & E1 & E & ->); [|inversion E].
    apply bind_inv_done in E as ([[[n2 rec3] a2]|] & s2 & e3 & e4 & E2 & E & ->);
      [|inversion E].
    inversion E; subst.
    pose proof (parse_ndef_loop_post _ _ _ _ _ _ _ _ _ _ E2) as (Hn & _).
    unfold bind. rewrite (parse_ndef_rec_frame _ _ r2 _ _ _ _ E1).
    rewrite (IH _ _ rec2 _ _ _ _ _ _ _ E2) by (cbn in Hl; lia).
    replace (n - i)%nat with (S (n - S i)) by lia. reflexivity.
Qed.

(** X7: the records [parse_ndef_msg] returns do not depend on what the
    array held before the call (in [nfc_cmd_tag] it is not initialised):
    on another array of the same size the same records are parsed and the
    entries from [n] on are those of that array. *)
Theorem parse_ndef_msg_frame args nrecs rec rec2 (s : St) n rec' a s' ev :
  parse_ndef_msg args nrecs rec s = (Done (Some (n, rec', a), s'), ev) ->
  length rec2 = length rec ->
  parse_ndef_msg args nrecs rec2 s
  = (Done (Some (n, firstn n rec' ++ skipn n rec2, a), s'), ev).
Proof.
  unfold parse_ndef_msg. intros E Hl.
  apply bind_inv_done in E as ([[[n2 rec3] a2]|] & s2 & e3 & e4 & E2 & E & ->); [|inversion E].
  destruct (args_nonempty a2) eqn:Ha; [inversion E|]. inversion E; subst.
  unfold bind. rewrite (parse_ndef_loop_frame _ _ _ rec2 _ _ _ _ _ _ _ E2 Hl).
  rewrite Ha, Nat.sub_0_r. reflexivity.
Qed.

(** X8: when the TNF of a record is out of range, the diagnostic of
    [parse_ndef_rec] shows the [tnf] that was in [*record] before the
    call, not the value read from the line. *)
Theorem parse_ndef_rec_tnf_diagnostic args r0 (s : St) p a0 ftok a1 flags ttok a2 tnf :
  strsep args "[" = (Some p, a0) ->
  strsep a0 " ," = (Some ftok, a1) ->
  strtoul ftok = (flags, 0) ->
  Z.land flags (Z.lnot NDEF_FLAG_BITS) = 0 ->
  strsep a1 " ," = (Some ttok, a2) ->
  strtoul ttok = (tnf, 0) ->
  NDEF_NUMBER_OF_TNFS <= tnf ->
  parse_ndef_rec args r0 s
  = (Done (None, s), [Log_err ("KO: invalid NDEF TNF '%u'" ++ CRLF) [AInt (rec_tnf r0)]]).
Proof.
  intros S0 S1 F Hm S2 T Ht.
  unfold parse_ndef_rec, parse_token_ul, lex_token, bind, ret, log_err, emit.
  rewrite S0, S1, F. cbn [Z.eqb negb]. rewrite Hm. cbn [Z.eqb negb].
  rewrite S2, T. cbn [Z.eqb negb].
  destruct (Z.ltb_spec tnf NDEF_NUMBER_OF_TNFS); [lia|]. reflexivity.
Qed.

Lemma parse_token_ul_value field delim args (s : St) v a s' ev :
  parse_token_ul field delim args s = (Done (Some (v, a), s'), ev) ->
  exists tok, v = fst (strtoul tok).
Proof.
  unfold parse_token_ul. intros E.
  apply bind_inv_done in E as ([[tok a0]|] & s1 & e1 & e2 & _ & E & _); [|inversion E].
  exists tok. destruct (strtoul tok) as [v0 e0]. destruct (negb (e0 =? 0)); inversion E.
  reflexivity.
Qed.

Ltac ul_bound E :=
  let E1 := fresh "E" in
  let tok := fresh "tok" in
  apply bind_inv_done in E as ([[? ?]|] & ? & ? & ? & E1 & E & _); [|inversion E];
  apply parse_token_ul_value in E1 as [tok ->];
  match type of E with
  | context [?a <? ?b] => destruct (Z.ltb_spec a b); cbn [negb] in E; inversion E; subst
  end.

Lemma parse_re_index_accepted args nres (s : St) i a s' ev :
  parse_re_index args nres s = (Done (Some (i, a), s'), ev) ->
  i < nres /\ exists tok, i = fst (strtoul tok).
Proof. unfold parse_re_index. intros E. ul_bound E. eauto. Qed.

Lemma parse_nci_ntf_type_accepted args (s : St) i a s' ev :
  parse_nci_ntf_type args s = (Done (Some (i, a), s'), ev) ->
  i < NUMBER_OF_NCI_NOTIFICATION_TYPES /\ exists tok, i = fst (strtoul tok).
Proof. unfold parse_nci_ntf_type. intros E. ul_bound E. eauto. Qed.

Lemma parse_nci_deactivate_ntf_type_accepted args (s : St) i a s' ev :
  parse_nci_deactivate_ntf_type args s = (Done (Some (i, a), s'), ev) ->
  i < NUMBER_OF_NCI_RF_DEACT_TYPE /\ exists tok, i = fst (strtoul tok).
Proof. unfold parse_nci_deactivate_ntf_type. intros E. ul_bound E. eauto. Qed.

Lemma parse_nci_deactivate_ntf_reason_accepted args (s : St) i a s' ev :
  parse_nci_deactivate_ntf_reason args s = (Done (Some (i, a), s'), ev) ->
  i < NUMBER_OF_NCI_RF_DEACT_REASON /\ exists tok, i = fst (strtoul tok).
Proof. unfold parse_nci_deactivate_ntf_reason. intros E. ul_bound E. eauto. Qed.

Lemma parse_rf_index_accepted args (s : St) i a s' ev :
  parse_rf_index args s = (Done (Some (i, a), s'), ev) ->
  -1 <= i < NUMBER_OF_SUPPORTED_NCI_RF_INTERFACES.
Proof.
  unfold parse_rf_index. intros E.
  apply bind_inv_done in E as ([[rf a1]|] & s1 & e1 & e2 & _ & E & _); [|inversion E].
  destruct (Z.ltb_spec rf (-1)), (Z.leb_spec NUMBER_OF_SUPPORTED_NCI_RF_INTERFACES rf);
    cbn in E; inversion E; subst. lia.
Qed.

End LexerPost.

(** ** nfc_recv_process_ndef_cb on any memory *)

Section ReporterMore.
Context `{Base64}.


Lemma nfc_recv_process_ndef_rec_entry mem ndef base64 e reclen base64' :
  nfc_recv_process_ndef_rec mem ndef base64 = Some (e, reclen, base64') ->
  (2 <= reclen)%nat /\ exists a, e = Log_msg ndef_report_fmt a.
Proof.
  unfold nfc_recv_process_ndef_rec, ndef_rec_len, obind.
  repeat match goal with
         | |- context [match ?x with _ => _ end] => destruct x; try discriminate
         end.
  intros E; inversion E; subst. split; [unfold ndef_hdr_len, sizeof_ndef_rec; lia|].
  eexists; reflexivity.
Qed.

Lemma nfc_recv_process_ndef_loop_shape mem : forall k remain ndef base64 r ev,
  (Z.to_nat remain < k)%nat ->
  nfc_recv_process_ndef_loop mem remain ndef base64 = (Done r, ev) ->
  Forall is_log_msg ev /\
  ((r = 0 /\ exists es, ev = es ++ [ndef_report_close] /\ ~ In ndef_report_close es)
   \/ (r = -1 /\ ~ In ndef_report_close ev)).
Proof.
  induction k as [|k IH]; intros remain ndef base64 r ev Hk E; [lia|].
  rewrite nfc_recv_process_ndef_loop_step in E.
  destruct (Z.eqb_spec remain 0).
  { inversion E; subst. split; [repeat constructor|].
    left. split; [reflexivity|]. exists []. split; [reflexivity|]. intros []. }
  destruct (Z.ltb_spec remain (Z.of_nat sizeof_ndef_rec)).
  { inversion E; subst. split; [constructor|]. right. split; [reflexivity|]. intros []. }
  destruct (nfc_recv_process_ndef_rec mem ndef base64) as [[[entry reclen] base64']|] eqn:Er;
    [|discriminate].
  apply nfc_recv_process_ndef_rec_entry in Er as (Hlen & a & ->).
  cbv zeta in E.
  destruct (nfc_recv_process_ndef_loop mem (remain - Z.of_nat reclen) (ndef + reclen) base64')
    as [r' ev'] eqn:El.
  inversion E; subst. clear E.
  apply IH in El as (Hall & Hsh); [|unfold sizeof_ndef_rec in *; lia].
  assert (Hc : ~ In ndef_report_close
                 (if remain - Z.of_nat reclen =? 0 then [] else [Log_msg "," []])).
  { destruct (remain - Z.of_nat reclen =? 0); [intros []|].
    intros [D|[]]. discriminate. }
  split.
  { constructor; [exact I|]. apply Forall_app. split; [|assumption].
    destruct (remain - Z.of_nat reclen =? 0); repeat constructor. }
  destruct Hsh as [(-> & es & -> & Hn)|(-> & Hn)].
  - left. split; [reflexivity|].
    exists (Log_msg ndef_report_fmt a
            :: (if remain - Z.of_nat reclen =? 0 then [] else [Log_msg "," []]) ++ es).
    split; [cbn; now rewrite <- app_assoc|].
    intros [D|D]; [discriminate|]. apply in_app_or in D as [D|D]; auto.
  - right. split; [reflexivity|].
    intros [D|D]; [discriminate|]. apply in_app_or in D as [D|D]; auto.
Qed.

(** X10: whatever the memory and the buffers hold, when
    [nfc_recv_process_ndef_cb] returns, the result is 0 or [-1], the
    opening bracket was logged first and only [log_msg] was used; the
    closing bracket is logged, last and once, exactly when the result is
    0. *)
Theorem nfc_recv_process_ndef_cb_outcome {St} base64 data len mem ndef (s s' : St) r ev :
  nfc_recv_process_ndef_cb base64 data len mem ndef s = (Done (r, s'), ev) ->
  s' = s /\ Forall is_log_msg ev /\
  exists es, ev = Log_msg "[" [] :: es /\
    ((r = 0 /\ exists es', es = es' ++ [ndef_report_close] /\ ~ In ndef_report_close es')
     \/ (r = -1 /\ ~ In ndef_report_close es)).
Proof.
  unfold nfc_recv_process_ndef_cb.
  destruct (nfc_recv_process_ndef_loop mem (Z.of_nat len) ndef base64) as [[r0|] ev0] eqn:El;
    [|discriminate].
  intros E; inversion E; subst.
  apply (nfc_recv_process_ndef_loop_shape mem (S (Z.to_nat (Z.of_nat len)))) in El as [Ha Hs];
    [|lia].
  split; [reflexivity|]. split; [constructor; [exact I|assumption]|].
  exists ev0. split; [reflexivity|]. exact Hs.
Qed.

End ReporterMore.

(** ** The dispatchers on any line *)

Section DispatchOutcomes.
Context `{NfcHost} `{Libc} `{Consts} `{Base64}.

Lemma call_dispatched e f w :
  bind (call e f) (fun res => if res <? 0 then ret (-1) else ret 0) w = dispatched e f w.
Proof.
  unfold bind, call, ret, dispatched. destruct (f w) as [res w']. cbn [fst snd].
  destruct (res <? 0); reflexivity.
Qed.

(** a step of a dispatcher through a parser *)
Ltac parse_step ER R :=
  unfold bind at 1 in ER;
  let x := fresh "x" in let a := fresh "a" in let E := fresh "E" in
  let fmt := fresh "fmt" in let ar := fresh "ar" in
  destruct R as [[[x a] E]|(fmt & ar & E)];
  [rewrite E in ER; cbn beta iota in ER
  | rewrite E in ER; left; exists fmt, ar; exact ER].

Ltac failed ER := left; do 2 eexists; exact ER.
Ltac called ER := cbv beta zeta in ER; rewrite call_dispatched in ER; exact ER.

(** X11: every line given to [nfc_cmd_llcp] ends in one of two ways:
    [-1] with exactly one diagnostic, no call and nothing changed, or
    exactly one [send_dta] of [nfc_llcp_connect_cb] with two SAPs in
    [-1 .. LLCP_NUMBER_OF_SAPS - 1], whose failure gives [-1] and whose
    success 0. *)
Theorem nfc_cmd_llcp_outcome args w :
  (exists fmt a, nfc_cmd_llcp args w = (Done (-1, w), [Log_err fmt a]))
  \/ (exists dsap ssap,
        -1 <= dsap < LLCP_NUMBER_OF_SAPS /\ -1 <= ssap < LLCP_NUMBER_OF_SAPS /\
        let f := Nfc_llcp_connect_cb {| llcp_dsap := dsap; llcp_ssap := ssap |} in
        nfc_cmd_llcp args w = dispatched (Send_dta f) (cb_send_dta f) w).
Proof.
  remember (nfc_cmd_llcp args w) as R eqn:ER.
  unfold nfc_cmd_llcp in ER. destruct args as [line|]; [|failed ER].
  destruct (strsep (Some line) " ") as [[p|] args]; [|failed ER].
  destruct (streq p "connect"); [|failed ER].
  parse_step ER (reports_parse_sap "DSAP" args true w).
  apply parse_sap_accepted in E as [Hd _].
  parse_step ER (reports_parse_sap "SSAP" a true w).
  apply parse_sap_accepted in E as [Hs _].
  right. exists x, x0. split; [assumption|]. split; [assumption|].
  cbv zeta in *. called ER.
Qed.

(** X12: every line given to [nfc_cmd_snep] ends in one of two ways:
    [-1] with exactly one diagnostic, no call and nothing changed, or
    exactly one call of the host ([recv_dta] without records, [send_dta]
    with records) on a parameter block with two SAPs in
    [-1 .. LLCP_NUMBER_OF_SAPS - 1] and at most four records, the entries
    after them being cleared records. *)
Theorem nfc_cmd_snep_outcome args w :
  (exists fmt a, nfc_cmd_snep args w = (Done (-1, w), [Log_err fmt a]))
  \/ (exists param,
        -1 <= snep_dsap param < LLCP_NUMBER_OF_SAPS /\
        -1 <= snep_ssap param < LLCP_NUMBER_OF_SAPS /\
        (snep_nrecords param <= 4)%nat /\
        length (snep_record param) = 4%nat /\
        skipn (snep_nrecords param) (snep_record param)
        = repeat NFC_NDEF_PARAM_RECORD_INIT (4 - snep_nrecords param) /\
        nfc_cmd_snep args w
        = dispatched (snep_dispatch param) (fun w => snep_dispatch_result param w) w).
Proof.
  remember (nfc_cmd_snep args w) as R eqn:ER.
  unfold nfc_cmd_snep in ER. destruct args as [line|]; [|failed ER].
  destruct (strsep (Some line) " ") as [[p|] args]; [|failed ER].
  destruct (streq p "put"); [|failed ER].
  parse_step ER (reports_parse_sap "DSAP" args true w).
  apply parse_sap_accepted in E as [Hd _].
  parse_step ER (reports_parse_sap "SSAP" a true w).
  apply parse_sap_accepted in E as [Hs _].
  unfold bind at 1 in ER.
  destruct (reports_parse_ndef_msg a0 4 (snep_record NFC_SNEP_PARAM_INIT)
              ltac:(cbn; lia) w) as [[[[n rec] a1] E]|(fmt & ar & E)];
    [rewrite E in ER; cbn beta iota in ER
    | rewrite E in ER; left; exists fmt, ar; exact ER].
  right.
  exists {| snep_dsap := x; snep_ssap := x0; snep_nrecords := n; snep_record := rec |}.
  cbn [snep_dsap snep_ssap snep_nrecords snep_record].
  unfold parse_ndef_msg in E. revert ER.
  apply bind_inv_done in E as ([[[n2 rec2] a2]|] & s2 & e3 & e4 & E2 & E & _); [|inversion E].
  destruct (args_nonempty a2); [inversion E|]. inversion E; subst. intros ER.
  apply parse_ndef_loop_post in E2 as (Hn & Hlen & Hsk & _).
  rewrite Nat.sub_0_r in Hsk. cbn [snep_record NFC_SNEP_PARAM_INIT] in Hlen, Hsk.
  rewrite repeat_length in Hlen.
  split; [assumption|]. split; [assumption|]. split; [lia|]. split; [assumption|].
  split.
  { rewrite Hsk. clear - Hn. destruct n as [|[|[|[|[|n]]]]]; reflexivity. }
  unfold snep_dispatch, snep_dispatch_result.
  cbn [snep_nrecords] in *.
  destruct (n =? 0)%nat; cbn [negb] in ER; called ER.
Qed.

(** X13: with a [strtoul] that gives no negative value, every line
    given to [nfc_cmd_nci] ends in one of two ways: [-1] with exactly one
    diagnostic, no call and nothing changed, or exactly one [send_ntf]
    whose parameter block points to an endpoint of [nfc_res] (or to none,
    for an activation without arguments) and has its notification type,
    RF index, deactivation type and reason in range, the fields not given
    on the line keeping their initial values. *)
Theorem nfc_cmd_nci_outcome args w :
  (forall tok, 0 <= fst (strtoul tok)) ->
  (exists fmt a, nfc_cmd_nci args w = (Done (-1, w), [Log_err fmt a]))
  \/ (exists f, ntf_cb_valid w f /\
        nfc_cmd_nci args w = dispatched (Send_ntf f) (cb_send_ntf f) w).
Proof.
  intros Hul.
  remember (nfc_cmd_nci args w) as R eqn:ER.
  unfold nfc_cmd_nci in ER. destruct args as [line|]; [|failed ER].
  destruct (strsep (Some line) " ") as [[p|] args]; [|failed ER].
  unfold bind at 1, get in ER.
  destruct (streq p "rf_discover_ntf").
  { parse_step ER (reports_parse_re_index args (nfc_res_size w) w).
    apply parse_re_index_accepted in E as (Hi & tok & ->).
    parse_step ER (reports_parse_nci_ntf_type a w).
    apply parse_nci_ntf_type_accepted in E as (Hn & tok' & ->).
    right. eexists. split; [|called ER].
    cbn. split; [|split; [apply Hul|assumption]].
    eexists. split; [reflexivity|].
    unfold nfc_res_size in Hi. specialize (Hul tok). lia. }
  destruct (streq p "rf_intf_activated_ntf").
  { unfold bind at 1 in ER.
    destruct (args_nonempty args).
    2:{ unfold ret at 1 in ER. cbn beta iota in ER.
        right. eexists. split; [|called ER]. cbn. auto. }
    parse_step ER (reports_parse_re_index args (nfc_res_size w) w).
    apply parse_re_index_accepted in E as (Hi & tok & ->).
    assert (Hlt : (Z.to_nat (fst (strtoul tok)) < length (nfc_res w))%nat).
    { unfold nfc_res_size in Hi. specialize (Hul tok). lia. }
    destruct (args_nonempty a).
    2:{ unfold ret at 1 in ER. cbn beta iota in ER.
        right. eexists. split; [|called ER]. cbn. auto. }
    parse_step ER (reports_parse_rf_index a w).
    apply parse_rf_index_accepted in E.
    unfold ret at 1 in ER. cbn beta iota in ER.
    right. eexists. split; [|called ER]. cbn.
    split; [reflexivity|]. split; [lia|assumption]. }
  destruct (streq p "rf_intf_deactivate_ntf").
  { unfold bind at 1 in ER.
    destruct (args_nonempty args).
    2:{ unfold ret at 1 in ER. cbn beta iota in ER.
        right. eexists. split; [|called ER]. cbn. auto. }
    parse_step ER (reports_parse_nci_deactivate_ntf_type args w).
    apply parse_nci_deactivate_ntf_type_accepted in E as (Ht & tok & ->).
    parse_step ER (reports_parse_nci_deactivate_ntf_reason a w).
    apply parse_nci_deactivate_ntf_reason_accepted in E as (Hr & tok' & ->).
    unfold ret at 1 in ER. cbn beta iota in ER.
    right. eexists. split; [|called ER]. cbn.
    split; [reflexivity|]. right. split; split; auto. }
  failed ER.
Qed.

End DispatchOutcomes.

Section TagTheorems.
Context `{NfcHost} `{Libc} `{Consts} `{Base64}.

(** X14: [tag set]: for an endpoint that is a tag and a line whose
    records parse, decode and fit [MAXIMUM_SUPPORTED_TAG_SIZE], the one
    thing [nfc_cmd_tag] does is to install, with [nfc_tag_set_data], the
    NDEF message of these records, and its length; a line without records
    installs the empty message.  What its locals held does not matter. *)
Theorem nfc_cmd_tag_set_installs record0 buf0 line w args i a1 w1 e1 re t n record a2 w2 e2 :
  strsep (Some line) " " = (Some "set", args) ->
  parse_re_index args (nfc_res_size w) w = (Done (Some (i, a1), w1), e1) ->
  nth_error (nfc_res w) (Z.to_nat i) = Some re ->
  tag re = Some t ->
  parse_ndef_msg a1 4 (map record0 (seq 0 4)) w
  = (Done (Some (n, record, a2), w2), e2) ->
  let wire := ndef_msg_wire (firstn n record) 0 n in
  recs_decode MAXIMUM_SUPPORTED_TAG_SIZE (firstn n record) 0 n 0 ->
  (length wire <= MAXIMUM_SUPPORTED_TAG_SIZE)%nat ->
  nfc_cmd_tag record0 buf0 (Some line) w
  = dispatched (Tag_set_data (Some t) (Some wire) (length wire))
               (nfc_tag_set_data (Some t) (Some wire) (length wire)) w.
Proof.
  intros Hop Hi Hre Ht Hm wire Hd Hl.
  pose proof (reports_parse_re_index args (nfc_res_size w) w) as R1.
  rewrite Hi in R1. destruct R1 as [[x R1]|(f & a & R1)]; [|discriminate].
  inversion R1; subst. clear R1.
  pose proof (reports_parse_ndef_msg a1 4 (map record0 (seq 0 4))
                ltac:(cbn; lia) w) as R2.
  rewrite Hm in R2. destruct R2 as [[x R2]|(f & a & R2)]; [|discriminate].
  inversion R2; subst. clear R2.
  assert (Hlen : (n <= length record)%nat).
  { unfold parse_ndef_msg in Hm.
    apply bind_inv_done in Hm as ([[[n2 rec2] a3]|] & s2 & e3 & e4 & E2 & E & _);
      [|inversion E].
    destruct (args_nonempty a3); [inversion E|]. inversion E; subst.
    apply parse_ndef_loop_post in E2 as (Hn & Hlen & _). cbn in Hlen. lia. }
  unfold nfc_cmd_tag. rewrite Hop. cbn [streq String.eqb Ascii.eqb Bool.eqb].
  unfold bind at 1, get. unfold bind at 1. rewrite Hi.
  unfold bind at 1, deref_re. rewrite Hre, Ht.
  unfold bind at 1. rewrite Hm.
  unfold bind at 1, with_local.
  rewrite (build_ndef_msg_eval record n MAXIMUM_SUPPORTED_TAG_SIZE _ Hlen Hd)
    by (rewrite length_map, length_seq; exact Hl).
  fold wire. rewrite firstn_app, Nat.sub_diag, firstn_all. cbn [firstn]. rewrite app_nil_r.
  rewrite call_dispatched. reflexivity.
Qed.


(** X16: [tag clear] and [tag format] pass the tag handle of the
    endpoint to [nfc_tag_set_data] and [nfc_tag_format] as it is, also
    when the endpoint has no tag; only [tag set] refuses an endpoint
    without a tag, before it looks at the records. *)
Theorem nfc_cmd_tag_handle_unchecked record0 buf0 line w op args i a1 w1 e1 re :
  strsep (Some line) " " = (Some op, args) ->
  parse_re_index args (nfc_res_size w) w = (Done (Some (i, a1), w1), e1) ->
  nth_error (nfc_res w) (Z.to_nat i) = Some re ->
  (op = "clear" ->
   nfc_cmd_tag record0 buf0 (Some line) w
   = dispatched (Tag_set_data (tag re) None 0) (nfc_tag_set_data (tag re) None 0) w) /\
  (op = "format" ->
   nfc_cmd_tag record0 buf0 (Some line) w
   = dispatched (Tag_format (tag re)) (nfc_tag_format (tag re)) w) /\
  (op = "set" -> tag re = None ->
   nfc_cmd_tag record0 buf0 (Some line) w
   = (Done (-1, w), [Log_err ("KO: remote endpoint is not a tag" ++ CRLF) []])).
Proof.
  intros Hop Hi Hre.
  pose proof (reports_parse_re_index args (nfc_res_size w) w) as R1.
  rewrite Hi in R1. destruct R1 as [[x R1]|(f & a & R1)]; [|discriminate].
  inversion R1; subst. clear R1.
  unfold nfc_cmd_tag. rewrite Hop.
  split; [|split]; intros ->; cbn [streq String.eqb Ascii.eqb Bool.eqb].
  - unfold bind at 1, get. unfold bind at 1. rewrite Hi.
    unfold bind at 1, deref_re. rewrite Hre.
    rewrite call_dispatched. reflexivity.
  - unfold bind at 1, get. unfold bind at 1. rewrite Hi.
    unfold bind at 1, deref_re. rewrite Hre.
    rewrite call_dispatched. reflexivity.
  - intros Ht. unfold bind at 1, get. unfold bind at 1. rewrite Hi.
    unfold bind at 1, deref_re. rewrite Hre, Ht. reflexivity.
Qed.

End TagTheorems.

(** ** The callbacks *)

Section ActivationTheorems.
Context `{NfcHost} `{Consts}.

(** X17: when [nfc_rf_intf_activated_ntf_cb] has an endpoint and an RF
    interface can be chosen, the endpoint is cleared, the chosen interface
    is active and the notification is created on that state: the
    interface that was already active is kept whatever the parameter
    names; otherwise it is the one the parameter names; otherwise the one
    found for the protocol and mode of the endpoint. *)
Theorem nfc_rf_intf_activated_ntf_cb_select param w re r a :
  ntf_target param w = Some re ->
  nth_error (nfc_res w) re = Some r ->
  rf_choice param w r = Some a ->
  let w1 := {| nfc := {| active_re := active_re (nfc w); active_rf := Some a;
                         rf := rf (nfc w) |};
               nfc_res := list_set (nfc_res w) re (nfc_clear_re r);
               host := host w |} in
  let res := fst (nfc_create_rf_intf_activated_ntf re w1) in
  nfc_rf_intf_activated_ntf_cb param w
  = (Done ((if res <? 0 then -1 else res, set_ntf_re param re),
           snd (nfc_create_rf_intf_activated_ntf re w1)),
     Clear_re re :: Create_rf_intf_activated_ntf re
     :: (if res <? 0 then [Log_err ("KO: rf_intf_activated_ntf failed" ++ CRLF) []]
         else [])).
Proof.
  intros Ht Hr Hc. cbv zeta. unfold ntf_target, rf_choice in *.
  unfold nfc_rf_intf_activated_ntf_cb, bind, get. rewrite Ht.
  unfold clear_re, bind, deref_re, emit. rewrite Hr. cbn [nfc nfc_res].
  destruct w as [[are arf rft] res h]. cbn [nfc nfc_res host active_re active_rf rf] in *.
  destruct arf as [a0|].
  - inversion Hc; subst. unfold ret, call, log_err, emit.
    destruct (nfc_create_rf_intf_activated_ntf re _) as [x w'].
    cbn [fst snd]. destruct (x <? 0); reflexivity.
  - cbn [ntf_rf set_ntf_re]. destruct (ntf_rf param =? -1).
    + cbn [nfc nfc_res].
      rewrite (nth_error_list_set _ _ (nfc_clear_re r) _ Hr).
      unfold set_active_rf. cbn [nfc nfc_res host active_re active_rf rf].
      rewrite Hc. unfold ret, call, log_err, emit.
      destruct (nfc_create_rf_intf_activated_ntf re _) as [x w'].
      cbn [fst snd]. destruct (x <? 0); reflexivity.
    + inversion Hc; subst.
      unfold set_active_rf, ret, call, log_err, emit.
      cbn [nfc nfc_res host active_re active_rf rf].
      destruct (nfc_create_rf_intf_activated_ntf re _) as [x w'].
      cbn [fst snd]. destruct (x <? 0); reflexivity.
Qed.

End ActivationTheorems.

Section ContractTheorems.
Context `{NfcHost}.



End ContractTheorems.

Section CreateSnepTheorems.
Context `{Base64} `{Snep}.

(** X19: [create_snep_cp] leaves the [sizeof(struct snep)] bytes of the
    header to [snep_create_req_put]: for [len] not below that size and
    records that decode and fit, the NDEF message is in the information
    field, the bytes behind it are as they were, and the request header is
    made for exactly the length of the message. *)
Theorem create_snep_cp_put data len pkt :
  (sizeof_snep <= len)%nat ->
  Z.of_nat len < 2 ^ 64 ->
  (snep_nrecords data <= length (snep_record data))%nat ->
  let record := firstn (snep_nrecords data) (snep_record data) in
  let wire := ndef_msg_wire record 0 (snep_nrecords data) in
  recs_decode (len - sizeof_snep) record 0 (snep_nrecords data) 0 ->
  (sizeof_snep + length wire <= length pkt)%nat ->
  create_snep_cp data len pkt
  = snep_create_req_put (length wire)
      (firstn sizeof_snep pkt ++ wire ++ skipn (sizeof_snep + length wire) pkt).
Proof.
  intros Hs Hlen Hn record wire Hd Hl.
  unfold create_snep_cp.
  assert (Hc : Z.to_nat (size_sub len sizeof_snep) = (len - sizeof_snep)%nat).
  { unfold size_sub. rewrite Z.mod_small by lia. lia. }
  rewrite Hc.
  rewrite (bind_done_nil _ _ pkt (Some (length wire))
             (firstn sizeof_snep pkt ++ wire ++ skipn (sizeof_snep + length wire) pkt));
    [reflexivity|].
  unfold at_offset.
  rewrite (build_ndef_msg_eval _ _ _ _ Hn Hd) by (rewrite length_skipn; fold record wire; lia).
  fold record wire. rewrite skipn2. reflexivity.
Qed.

End CreateSnepTheorems.

(** * The properties on examples *)

Import Fake.

(** [-1] is taken where the field is auto-detectable and refused where it
    is not; 64 is refused. *)
Lemma parse_sap_range_witness :
  parse_sap (St:=unit) "DSAP" (Some "-1 4") true tt = (Done (Some (-1, Some "4"), tt), [])
  /\ parse_sap (St:=unit) "DSAP" (Some "-1 4") false tt
     = (Done (None, tt), [Log_err ("KO: invalid %s '%ld'" ++ CRLF) [AStr "DSAP"; AInt (-1)]])
  /\ parse_sap (St:=unit) "DSAP" (Some "64 4") true tt
     = (Done (None, tt), [Log_err ("KO: invalid %s '%ld'" ++ CRLF) [AStr "DSAP"; AInt 64]]).
Proof.
  split; [|split].
  - exact (parse_sap_range "DSAP" (Some "-1 4") true tt "-1" (Some "4") (-1) eq_refl eq_refl).
  - exact (parse_sap_range "DSAP" (Some "-1 4") false tt "-1" (Some "4") (-1) eq_refl eq_refl).
  - exact (parse_sap_range "DSAP" (Some "64 4") true tt "64" (Some "4") 64 eq_refl eq_refl).
Defined.

(** The second of two records: ME and not MB, no IL. *)
Lemma build_ndef_msg_flags_witness :
  exists fb,
    nth_error msg2 (ndef_rec_offset [rec_sr_id; rec_abc] 2 1) = Some fb /\
    (ndef_rec_offset [rec_sr_id; rec_abc] 2 1 < 24)%nat /\
    has fb NDEF_FLAG_MB = has (rec_flags rec_abc) NDEF_FLAG_MB || (1 =? 0)%nat /\
    has fb NDEF_FLAG_ME = has (rec_flags rec_abc) NDEF_FLAG_ME || (1 + 1 =? 2)%nat /\
    has fb NDEF_FLAG_IL
    = has (rec_flags rec_abc) NDEF_FLAG_IL || negb (strlen (rec_id rec_abc) =? 0)%nat.
Proof.
  refine (proj2 (build_ndef_msg_flags [rec_sr_id; rec_abc] 2 40 (repeat 0 40) 24 msg2 []
                   _) 1%nat rec_abc _ eq_refl).
  - vm_compute; reflexivity.
  - lia.
Defined.

(** C1 as stated fails: a record whose caller flags have IL and whose id is
    empty is built with IL set, and its decoded id has length 0. *)
Lemma build_ndef_msg_flags_counterexample :
  build_ndef_msg [rec_il_noid] 1 20 (repeat 0 20)
  = (Done (Some 13%nat,
           [201; 3; 0; 0; 0; 3; 0; 65; 66; 67; 68; 69; 70; 0; 0; 0; 0; 0; 0; 0]), [])
  /\ has 201 NDEF_FLAG_IL = true
  /\ b64_decode (rec_id rec_il_noid) = Some [].
Proof. vm_compute. repeat split. Qed.



(** C3: [build_ndef_msg] does not fail on a record whose type does not
    decode within the capacity that remains.  With [len] 3 the header of
    the one record, six bytes, is written without a look at [len]; the
    capacity passed to the decode of the type is [3 - 6] on [size_t],
    [2 ^ 64 - 3], so the three bytes of the type and the three of the
    payload are accepted, and the function returns 12, having written
    twelve bytes where three were allowed. *)
Theorem build_ndef_msg_beyond_capacity :
  build_ndef_msg [rec_abc] 1 3 (repeat 0 20)
  = (Done (Some 12%nat, [193; 3; 0; 0; 0; 3; 65; 66; 67; 68; 69; 70] ++ repeat 0 8), [])
  /\ ndef_hdr_len (ndef_flags rec_abc 0 1) = 6%nat
  /\ size_sub 3 (ndef_hdr_len (ndef_flags rec_abc 0 1)) = 2 ^ 64 - 3
  /\ dec (rec_type rec_abc) = [65; 66; 67].
Proof. repeat split; vm_compute; reflexivity. Qed.

(** When the memory at [buf] really ends after [len] bytes, the same call
    writes outside it. *)
Example build_ndef_msg_header_beyond_memory :
  build_ndef_msg [rec_abc] 1 3 [0; 0; 0] = (Undefined, []).
Proof. vm_compute. reflexivity. Qed.

(** SR with a payload of 258 bytes is refused, and so is a type of three
    bytes where two are left. *)
Lemma build_ndef_msg_refuses_witness :
  (exists buf' ev, build_ndef_msg [rec_sr_long] 1 300 (repeat 0 300) = (Done (None, buf'), ev))
  /\ (exists buf' ev, build_ndef_msg [rec_sr_id; rec_abc] 2 20 (repeat 0 20)
                      = (Done (None, buf'), ev)).
Proof.
  split.
  - refine (build_ndef_msg_refuses [rec_sr_long] 1 300 (repeat 0 300) 0 rec_sr_long
              _ eq_refl _ _ _).
    + lia.
    + apply Nat.leb_le; vm_compute; reflexivity.
    + apply Nat.leb_le; vm_compute; reflexivity.
    + left. split; vm_compute; reflexivity.
  - refine (build_ndef_msg_refuses [rec_sr_id; rec_abc] 2 20 (repeat 0 20) 1 rec_abc
              _ eq_refl _ _ _).
    + lia.
    + apply Nat.leb_le; vm_compute; reflexivity.
    + apply Nat.leb_le; vm_compute; reflexivity.
    + right. left. vm_compute. reflexivity.
Defined.

(** ... with [-1] and the diagnostic. *)
Example build_sr_long_payload :
  exists buf',
    build_ndef_msg [rec_sr_long] 1 300 (repeat 0 300)
    = (Done (None, buf'),
       [Log_err "KO: NDEF flag SR set for long payload of %zu bytes" [AInt 258]]).
Proof. eexists. vm_compute. reflexivity. Qed.

(** One record: the send callback; none: the receive callback. *)
Lemma nfc_cmd_snep_put_dispatch_witness :
  nfc_cmd_snep (Some "put -1 4 [16,1,QUJD,aWQ,REVG]") world_active
  = (Done (0, world_active), [Send_dta (Nfc_send_snep_put_cb put_param)])
  /\ nfc_cmd_snep (Some "put -1 -1") world_active
     = (Done (0, world_active), [Recv_dta (Nfc_recv_snep_put_cb put_none)]).
Proof.
  split.
  - refine (nfc_cmd_snep_put_dispatch "put -1 4 [16,1,QUJD,aWQ,REVG]" world_active
              (Some "-1 4 [16,1,QUJD,aWQ,REVG]") (-1) (Some "4 [16,1,QUJD,aWQ,REVG]")
              world_active [] 4 (Some "[16,1,QUJD,aWQ,REVG]") world_active []
              1 (snep_record put_param) (Some "") world_active [] _ _ _ _);
      vm_compute; reflexivity.
  - refine (nfc_cmd_snep_put_dispatch "put -1 -1" world_active
              (Some "-1 -1") (-1) (Some "-1")
              world_active [] (-1) None world_active []
              0 (snep_record put_none) None world_active [] _ _ _ _);
      vm_compute; reflexivity.
Defined.

(** An unknown keyword for [tag]. *)
Lemma nfc_cmd_tag_unknown_operation_witness :
  nfc_cmd_tag stale_records stale_bytes (Some "bogus 0") world_tag
  = (Done (0, world_tag), []).
Proof.
  refine (proj1 (nfc_cmd_tag_unknown_operation stale_records stale_bytes
                   "bogus 0" world_tag "bogus" (Some "0") _ _ _ _)).
  - vm_compute; reflexivity.
  - intro E; discriminate E.
  - intro E; discriminate E.
  - intro E; discriminate E.
Defined.

(** Auto-detection that yields DSAP 0 is refused. *)
Lemma nfc_llcp_connect_cb_zero_sap_witness :
  nfc_llcp_connect_cb {| llcp_dsap := -1; llcp_ssap := -1 |} world_dsap0
  = (Done ((-1, {| llcp_dsap := 0; llcp_ssap := 17 |}), world_dsap0),
     [Log_err ("KO: DSAP is 0" ++ CRLF) []]).
Proof.
  refine (proj1 (nfc_llcp_connect_cb_zero_sap {| llcp_dsap := -1; llcp_ssap := -1 |}
                   world_dsap0 0 (endpoint 0 17 0 0 None true) _ _) _);
    vm_compute; reflexivity.
Defined.

(** [-1 -1] becomes the endpoint's 16 and 17. *)
Lemma nfc_snep_put_cb_resolve_witness :
  nfc_send_snep_put_cb put_none world_active
  = (Done ((0, snep_resolved put_none (endpoint 16 17 0 0 None true)), world_active),
     [Re_send_snep_put 0 16 17 (snep_resolved put_none (endpoint 16 17 0 0 None true))]).
Proof.
  refine (proj1 (proj2 (proj2 (proj2 (nfc_snep_put_cb_resolve put_none world_active)
                   0%nat (endpoint 16 17 0 0 None true) _ _)))).
  - vm_compute; reflexivity.
  - vm_compute; reflexivity.
Defined.

(** C9 as stated fails: with DSAP [-1] and SSAP 4, both callbacks go on with
    DSAP [-1], although the active endpoint's last DSAP is 16. *)
Lemma nfc_snep_put_cb_resolve_counterexample :
  nfc_send_snep_put_cb put_param world_active
  = (Done ((0, put_param), world_active), [Re_send_snep_put 0 (-1) 4 put_param])
  /\ nfc_recv_snep_put_cb put_param world_active
     = (Done ((0, put_param), world_active), [Re_recv_snep_put 0 (-1) 4 put_param]).
Proof. split; vm_compute; reflexivity. Qed.

(** No RF interface for protocol 2, mode 2. *)
Lemma nfc_rf_intf_activated_ntf_cb_no_match_witness :
  nfc_rf_intf_activated_ntf_cb activate_auto world_no_rf
  = (Done ((-1, activate_auto),
           the_world (device None None [(1, 1)]) [endpoint 16 17 2 2 None false]),
     [Clear_re 0; Log_err ("KO: no active rf interface" ++ CRLF) []]).
Proof.
  refine (proj2 (nfc_rf_intf_activated_ntf_cb_no_match activate_auto world_no_rf)
                0%nat (endpoint 16 17 2 2 None true) _ _ _ _ _);
    vm_compute; reflexivity.
Defined.

(** C7 as stated fails: the command fails for want of a matching RF
    interface, and the endpoint's link state has been cleared. *)
Lemma nfc_rf_intf_activated_ntf_cb_counterexample :
  exists w',
    nfc_rf_intf_activated_ntf_cb activate_auto world_no_rf
    = (Done ((-1, activate_auto), w'),
       [Clear_re 0; Log_err ("KO: no active rf interface" ++ CRLF) []])
    /\ map link (nfc_res world_no_rf) = [true]
    /\ map link (nfc_res w') = [false]
    /\ w' <> world_no_rf.
Proof.
  eexists. split; [vm_compute; reflexivity|]. split; [reflexivity|]. split; [reflexivity|].
  intro E. discriminate E.
Qed.


(** With this mask a caller's MB is refused. *)
Example parse_ndef_rec_rejects_MB :
  parse_ndef_msg (St:=unit) (Some "[128,1,QUJD,,REVG]") 4
                 (repeat NFC_NDEF_PARAM_RECORD_INIT 4) tt
  = (Done (None, tt), [Log_err ("KO: invalid NDEF flags '%u'" ++ CRLF) [AInt 128]]).
Proof. vm_compute. reflexivity. Qed.

(** The end-to-end example of the specification: [tag set 0 [0,1,QUJD,,REVG]]
    installs one record with MB and ME, TNF 1, type "ABC", no id, payload
    "DEF", which the Reporter shows as such. *)
Example tag_set_abc :
  nfc_cmd_tag stale_records stale_bytes (Some "set 0 [0,1,QUJD,,REVG]") world_tag
  = (Done (0, world_tag),
     [Tag_set_data (Some 0%nat) (Some [193; 3; 0; 0; 0; 3; 65; 66; 67; 68; 69; 70]) 12])
  /\ nfc_recv_process_ndef_cb stale_texts no_data 12
                              [193; 3; 0; 0; 0; 3; 65; 66; 67; 68; 69; 70] 0 tt
     = (Done (0, tt),
        [Log_msg "[" [];
         Log_msg ndef_report_fmt [AInt 1; AStrN 4 "QUJD"; AStrN 0 ""; AStrN 4 "REVG"];
         Log_msg ("]" ++ CRLF) []]).
Proof. split; vm_compute; reflexivity. Qed.

(** The hypothesis on the mask is needed: were [NDEF_FLAG_BITS] all five
    flag bits, a caller's IL would pass the parser, on a record without
    id. *)
Example parse_ndef_msg_all_flags_mask :
  @parse_ndef_msg unit libc consts_all_flags (Some "[8,1,QUJD,,REVG]") 4
                  (repeat NFC_NDEF_PARAM_RECORD_INIT 4) tt
  = (Done (Some (1%nat,
                 rec_il_noid :: repeat NFC_NDEF_PARAM_RECORD_INIT 3,
                 Some ""), tt), []).
Proof. vm_compute. reflexivity. Qed.

(** ** The behaviour on every input, on examples *)

Ltac leb := apply Nat.leb_le; vm_compute; reflexivity.
Ltac ltb := apply Nat.ltb_lt; vm_compute; reflexivity.

Ltac decodes :=
  let k := fresh "k" in
  let r := fresh "r" in
  let Hk := fresh "Hk" in
  intros k r Hk;
  repeat match type of Hk with
         | nth_error _ ?i = _ =>
           is_var i; destruct i; simpl in Hk;
           [inversion Hk; subst r; vm_compute; repeat split;
            first [reflexivity | discriminate]|]
         end;
  discriminate Hk.

(** The message of two records, and why it is built. *)
Lemma build_ndef_msg_succeeds_witness :
  build_ndef_msg [rec_sr_id; rec_abc] 2 40 (repeat 0 40) = (Done (Some 24%nat, msg2), [])
  /\ recs_decode 40 [rec_sr_id; rec_abc] 0 2 0.
Proof.
  assert (E : build_ndef_msg [rec_sr_id; rec_abc] 2 40 (repeat 0 40)
              = (Done (Some 24%nat, msg2), [])) by (vm_compute; reflexivity).
  split; [exact E|].
  exact (proj1 (proj2 (proj1 (build_ndef_msg_succeeds [rec_sr_id; rec_abc] 2 40
                                (repeat 0 40) 24 msg2 []) E))).
Defined.

(** The same message in a buffer that held sevens. *)
Lemma build_ndef_msg_frame_witness :
  build_ndef_msg [rec_sr_id; rec_abc] 2 40 (repeat 7 40)
  = (Done (Some 24%nat, firstn 24 msg2 ++ skipn 24 (repeat 7 40)), []).
Proof.
  refine (proj2 (proj2 (proj2 (proj2
            (build_ndef_msg_frame [rec_sr_id; rec_abc] 2 40 (repeat 0 40) 24 msg2 [] _))))
            (repeat 7 40) _);
    vm_compute; reflexivity.
Defined.

(** Fourteen bytes: the first record takes twelve, the header of the
    second needs six. *)
Lemma build_ndef_msg_header_overrun_witness :
  build_ndef_msg [rec_sr_id; rec_abc] 2 14 (repeat 0 14) = (Undefined, []).
Proof.
  refine (build_ndef_msg_header_overrun [rec_sr_id] rec_abc [] 2 14 (repeat 0 14) _ _ _ _).
  - ltb.
  - decodes.
  - leb.
  - ltb.
Defined.


(** A line with text after the record: one diagnostic. *)
Lemma parse_ndef_msg_reports_witness :
  (exists x, parse_ndef_msg (St:=unit) (Some "[0,1,QUJD,,REVG] x") 1
                            (repeat NFC_NDEF_PARAM_RECORD_INIT 4) tt
             = (Done (Some x, tt), []))
  \/ (exists fmt a, parse_ndef_msg (St:=unit) (Some "[0,1,QUJD,,REVG] x") 1
                                   (repeat NFC_NDEF_PARAM_RECORD_INIT 4) tt
                    = (Done (None, tt), [Log_err fmt a])).
Proof.
  refine (parse_ndef_msg_reports (Some "[0,1,QUJD,,REVG] x") 1
            (repeat NFC_NDEF_PARAM_RECORD_INIT 4) tt _).
  leb.
Defined.

(** One record on the line. *)
Lemma parse_ndef_msg_post_witness :
  (1 <= 4)%nat /\
  length (snep_record put_param) = length (repeat NFC_NDEF_PARAM_RECORD_INIT 4) /\
  skipn 1 (snep_record put_param) = skipn 1 (repeat NFC_NDEF_PARAM_RECORD_INIT 4) /\
  args_nonempty (Some "") = false /\
  ((0 < 4)%nat -> (1%nat = 0%nat <-> args_nonempty (Some "[16,1,QUJD,aWQ,REVG]") = false)) /\
  forall k r, (k < 1)%nat -> nth_error (snep_record put_param) k = Some r ->
    Z.land (rec_flags r) (Z.lnot NDEF_FLAG_BITS) = 0 /\
    rec_tnf r < NDEF_NUMBER_OF_TNFS /\ rec_type r <> "" /\ rec_payload r <> "".
Proof.
  refine (parse_ndef_msg_post (St:=unit) (Some "[16,1,QUJD,aWQ,REVG]") 4
            (repeat NFC_NDEF_PARAM_RECORD_INIT 4) tt 1 (snep_record put_param) (Some "") tt []
            _).
  vm_compute; reflexivity.
Defined.

(** The same line on an array that held other records. *)
Lemma parse_ndef_msg_frame_witness :
  parse_ndef_msg (St:=unit) (Some "[16,1,QUJD,aWQ,REVG]") 4 (repeat rec_abc 4) tt
  = (Done (Some (1%nat, [rec_sr_id; rec_abc; rec_abc; rec_abc], Some ""), tt), []).
Proof.
  refine (parse_ndef_msg_frame (St:=unit) (Some "[16,1,QUJD,aWQ,REVG]") 4
            (repeat NFC_NDEF_PARAM_RECORD_INIT 4) (repeat rec_abc 4) tt
            1 (snep_record put_param) (Some "") tt [] _ _);
    vm_compute; reflexivity.
Defined.

(** The line has TNF 9; the diagnostic shows the 1 that the record held. *)
Lemma parse_ndef_rec_tnf_diagnostic_witness :
  parse_ndef_rec (St:=unit) (Some "[0,9,QUJD,,REVG]") rec_abc tt
  = (Done (None, tt), [Log_err ("KO: invalid NDEF TNF '%u'" ++ CRLF) [AInt 1]]).
Proof.
  refine (parse_ndef_rec_tnf_diagnostic (St:=unit) (Some "[0,9,QUJD,,REVG]") rec_abc tt
            "" (Some "0,9,QUJD,,REVG]") "0" (Some "9,QUJD,,REVG]") 0
            "9" (Some "QUJD,,REVG]") 9 _ _ _ _ _ _ _);
    try (vm_compute; reflexivity).
  vm_compute. discriminate.
Defined.


(** The message of two records: the bracket is closed. *)
Lemma nfc_recv_process_ndef_cb_outcome_witness :
  tt = tt /\
  Forall is_log_msg (Log_msg "[" [] :: ndef_report [rec_sr_id; rec_abc] 0 2) /\
  exists es,
    Log_msg "[" [] :: ndef_report [rec_sr_id; rec_abc] 0 2 = Log_msg "[" [] :: es /\
    ((0 = 0 /\ exists es', es = es' ++ [ndef_report_close] /\ ~ In ndef_report_close es')
     \/ (0 = -1 /\ ~ In ndef_report_close es)).
Proof.
  refine (nfc_recv_process_ndef_cb_outcome stale_texts no_data 24 msg2 0 tt tt 0
            (Log_msg "[" [] :: ndef_report [rec_sr_id; rec_abc] 0 2) _).
  vm_compute; reflexivity.
Defined.

Lemma strtoul_nonneg tok : 0 <= fst (strtoul tok).
Proof.
  unfold strtoul, libc. destruct (scan_number tok) as [neg m].
  destruct (2 ^ 64 - 1 <? m); cbn [fst]; [lia|].
  apply Z.mod_pos_bound. lia.
Qed.

(** A discovery notification for endpoint 0. *)
Lemma nfc_cmd_nci_outcome_witness :
  (exists fmt a, nfc_cmd_nci (Some "rf_discover_ntf 0 1") world_active
                 = (Done (-1, world_active), [Log_err fmt a]))
  \/ (exists f, ntf_cb_valid world_active f /\
        nfc_cmd_nci (Some "rf_discover_ntf 0 1") world_active
        = dispatched (Send_ntf f) (cb_send_ntf f) world_active).
Proof.
  exact (nfc_cmd_nci_outcome (Some "rf_discover_ntf 0 1") world_active strtoul_nonneg).
Defined.

(** [tag set 0 [0,1,QUJD,,REVG]] installs the twelve bytes of the record. *)
Lemma nfc_cmd_tag_set_installs_witness :
  nfc_cmd_tag stale_records stale_bytes (Some "set 0 [0,1,QUJD,,REVG]") world_tag
  = (Done (0, world_tag),
     [Tag_set_data (Some 0%nat) (Some [193; 3; 0; 0; 0; 3; 65; 66; 67; 68; 69; 70]) 12]).
Proof.
  refine (nfc_cmd_tag_set_installs stale_records stale_bytes
            "set 0 [0,1,QUJD,,REVG]" world_tag
            (Some "0 [0,1,QUJD,,REVG]") 0 (Some "[0,1,QUJD,,REVG]") world_tag []
            (endpoint 0 0 0 0 (Some 0%nat) true) 0%nat
            1 (rec_abc :: map stale_records (seq 1 3)) (Some "") world_tag []
            _ _ _ _ _ _ _).
  - vm_compute; reflexivity.
  - vm_compute; reflexivity.
  - vm_compute; reflexivity.
  - vm_compute; reflexivity.
  - vm_compute; reflexivity.
  - decodes.
  - leb.
Defined.


(** [tag clear] on an endpoint without a tag: the call is made with no
    handle. *)
Lemma nfc_cmd_tag_handle_unchecked_witness :
  nfc_cmd_tag stale_records stale_bytes (Some "clear 0") world_active
  = (Done (0, world_active), [Tag_set_data None None 0]).
Proof.
  refine (proj1 (nfc_cmd_tag_handle_unchecked stale_records stale_bytes
                   "clear 0" world_active "clear" (Some "0")
                   0 None world_active [] (endpoint 16 17 0 0 None true) _ _ _) eq_refl);
    vm_compute; reflexivity.
Defined.

(** The parameter names RF interface 2; interface 0, active already,
    stays. *)
Lemma nfc_rf_intf_activated_ntf_cb_select_witness :
  nfc_rf_intf_activated_ntf_cb activate_rf2 world_rf_active
  = (Done ((0, activate_rf2),
           the_world (device None (Some 0) [(1, 1)]) [endpoint 16 17 1 1 None false]),
     [Clear_re 0; Create_rf_intf_activated_ntf 0]).
Proof.
  refine (nfc_rf_intf_activated_ntf_cb_select activate_rf2 world_rf_active 0%nat
            (endpoint 16 17 1 1 None true) 0 _ _ _);
    vm_compute; reflexivity.
Defined.


(** One record in a frame of thirty bytes. *)
Lemma create_snep_cp_put_witness :
  create_snep_cp put_abc 30 (repeat 0 30)
  = (Done (18, [16; 2; 0; 0; 0; 12; 193; 3; 0; 0; 0; 3; 65; 66; 67; 68; 69; 70;
                0; 0; 0; 0; 0; 0; 0; 0; 0; 0; 0; 0]), []).
Proof.
  refine (create_snep_cp_put put_abc 30 (repeat 0 30) _ _ _ _ _).
  - leb.
  - vm_compute; reflexivity.
  - leb.
  - decodes.
  - leb.
Defined.
